(** * tiger-tracker: the price ingestion loop of [ingest.py]

    A shallow embedding of [ingest.py]: the three tables and the catalog
    objects the script creates, one database connection with its open
    transaction, the HTTP price fetch, one ingest cycle and the driver loop
    of [main].  Code that talks to the store runs in a state-and-exception
    monad over the connection; the network, the clock, injected store
    failures and the arrival of Ctrl+C are inputs of each cycle. *)

From Stdlib Require Import ZArith QArith.QArith_base.
From stdpp Require Import gmap strings list.

Local Open Scope string_scope.
Local Open Scope list_scope.
Local Open Scope Z_scope.

(** ** Rows of the three tables *)

(** [users (id SERIAL PRIMARY KEY, name TEXT)] *)
Record user_row := mkUser { u_id : Z; u_name : string }.

(** [assets (id SERIAL PRIMARY KEY, symbol TEXT, name TEXT)] *)
Record asset_row := mkAsset { a_id : Z; a_symbol : string; a_name : string }.

#[global] Instance user_row_eq_dec : EqDecision user_row.
Proof. solve_decision. Defined.
#[global] Instance asset_row_eq_dec : EqDecision asset_row.
Proof. solve_decision. Defined.

#[global] Instance Q_eq_dec : EqDecision Q.
Proof. solve_decision. Defined.

(** [transactions (id SERIAL, user_id, asset_id, amount, price_usd, ts,
    PRIMARY KEY (id, ts))].  A price is the decimal value of the JSON number,
    which the script passes through untouched; a timestamp is a number of
    microseconds. *)
Record tx_row := mkTx {
  t_id : Z;
  t_user_id : Z;
  t_asset_id : Z;
  t_amount : Z;
  t_price_usd : Q;
  t_ts : Z
}.

#[global] Instance tx_row_eq_dec : EqDecision tx_row.
Proof. solve_decision. Defined.

(** A tuple of [rows] in [ingest_once]:
    [(user_id, asset_id, amount, price_usd, ts)]. *)
Definition tx_values : Type := (Z * Z * Z * Q * Z)%type.

(** ** Exceptions *)

Inductive db_error :=
| UndefinedTable (table : string)
| DuplicateRelation (name : string)
| UniqueViolation (constraint : string)
| ForeignKeyViolation (constraint : string)
| InvalidOnConflict
| TableNotEmpty (table : string)
| OperationalError
| InterfaceError.

Inductive exn :=
| HTTPError (status : Z)          (* requests.HTTPError *)
| Timeout                         (* requests.Timeout *)
| ConnectionError                 (* requests.ConnectionError *)
| JSONDecodeError                 (* raised by r.json() *)
| KeyError (key : string)
| DatabaseError (e : db_error)    (* psycopg2.Error *)
| RuntimeError (msg : string)
| KeyboardInterrupt.

#[global] Instance db_error_eq_dec : EqDecision db_error.
Proof. solve_decision. Defined.
#[global] Instance exn_eq_dec : EqDecision exn.
Proof. solve_decision. Defined.

(** [isinstance(e, requests.HTTPError)]: the timeout and connection errors of
    requests are siblings of [HTTPError] under [RequestException], not
    subclasses of it. *)
Definition isinstance_HTTPError (e : exn) : bool :=
  match e with HTTPError _ => true | _ => false end.

(** [isinstance(e, Exception)]: [KeyboardInterrupt] derives from
    [BaseException] only. *)
Definition isinstance_Exception (e : exn) : bool :=
  match e with KeyboardInterrupt => false | _ => true end.

Inductive result (A : Type) :=
| Ok (a : A)
| Raise (e : exn).
Arguments Ok {A} a.
Arguments Raise {A} e.

#[global] Instance result_ret : MRet result := fun A a => Ok a.
#[global] Instance result_bind : MBind result := fun A B k r =>
  match r with
  | Ok a => k a
  | Raise e => Raise e
  end.

(** ** The store and the connection *)

(** What a transaction reads and writes: the catalog objects the script
    creates by name, and the rows of the three tables in insertion order. *)
Record db := mkDb {
  tables : list string;
  indexes : list (string * string);      (* (tablename, indexname) *)
  hypertables : list string;
  users : list user_row;
  assets : list asset_row;
  transactions : list tx_row
}.

Inductive log_line :=
| LogInserted (ts : Z) (n : nat)     (* "[<ts>Z] inserted <n> rows" *)
| LogStarting                        (* "Starting ingestion loop. ..." *)
| LogHttpError (e : exn)             (* "HTTP error from API: ..." *)
| LogIngestError (e : exn)           (* "Ingest error: ... Rolling back this cycle." *)
| LogStopping.                       (* "Stopping." *)

Inductive event :=
| EvHttpGet (ids : string)
| EvSelectAssets
| EvInsertTransactions (rows : list tx_values)
| EvCommit
| EvRollback
| EvClose
| EvPrint (line : log_line)
| EvSleep (seconds : Z).

#[global] Instance log_line_eq_dec : EqDecision log_line.
Proof. solve_decision. Defined.
#[global] Instance event_eq_dec : EqDecision event.
Proof. unfold tx_values. solve_decision. Defined.

(** The one connection of [main].  [committed] is what the store holds,
    [pending] is what the open transaction sees (equal to [committed] when
    nothing is uncommitted).  The three SERIAL sequences hold their last
    value and are not transactional.  [trace] records what the process did,
    oldest first. *)
Record conn := mkConn {
  committed : db;
  pending : db;
  users_id_seq : Z;
  assets_id_seq : Z;
  transactions_id_seq : Z;
  trace : list event
}.

Definition set_pending (d : db) (c : conn) : conn :=
  mkConn (committed c) d (users_id_seq c) (assets_id_seq c)
         (transactions_id_seq c) (trace c).

Definition log_event (e : event) (c : conn) : conn :=
  mkConn (committed c) (pending c) (users_id_seq c) (assets_id_seq c)
         (transactions_id_seq c) (trace c ++ [e]).

Definition set_tables (ts : list string) (d : db) : db :=
  mkDb ts (indexes d) (hypertables d) (users d) (assets d) (transactions d).
Definition set_indexes (ix : list (string * string)) (d : db) : db :=
  mkDb (tables d) ix (hypertables d) (users d) (assets d) (transactions d).
Definition set_hypertables (hs : list string) (d : db) : db :=
  mkDb (tables d) (indexes d) hs (users d) (assets d) (transactions d).
Definition set_users (us : list user_row) (d : db) : db :=
  mkDb (tables d) (indexes d) (hypertables d) us (assets d) (transactions d).
Definition set_assets (xs : list asset_row) (d : db) : db :=
  mkDb (tables d) (indexes d) (hypertables d) (users d) xs (transactions d).
Definition set_transactions (xs : list tx_row) (d : db) : db :=
  mkDb (tables d) (indexes d) (hypertables d) (users d) (assets d) xs.

(** The part of a connection that is the store: everything but the trace. *)
Definition store_of (c : conn) : db * db * (Z * Z * Z) :=
  (committed c, pending c,
   (users_id_seq c, assets_id_seq c, transactions_id_seq c)).

(** An empty database and a connection to it. *)
Definition empty_db : db := mkDb [] [] [] [] [] [].
Definition fresh : conn := mkConn empty_db empty_db 0 0 0 [].

(** ** The monad: state that survives an exception *)

Definition M (A : Type) : Type := conn → result A * conn.

Definition raise {A} (e : exn) : M A := fun c => (Raise e, c).

#[global] Instance M_ret : MRet M := fun A a c => (Ok a, c).
#[global] Instance M_bind : MBind M := fun A B k m c =>
  match m c with
  | (Ok a, c1) => k a c1
  | (Raise e, c1) => (Raise e, c1)
  end.

Definition modify (f : conn → conn) : M unit := fun c => (Ok tt, f c).
Definition lift {A} (r : result A) : M A := fun c => (r, c).
Definition get_pending : M db := fun c => (Ok (pending c), c).
Definition put_pending (d : db) : M unit := modify (set_pending d).
Definition emit (e : event) : M unit := modify (log_event e).
Definition print (l : log_line) : M unit := emit (EvPrint l).
Definition pass : M unit := mret tt.

(** [for x in xs: body(x)] *)
Fixpoint for_each {A} (body : A → M unit) (xs : list A) : M unit :=
  match xs with
  | [] => mret tt
  | x :: xs' => body x ;; for_each body xs'
  end.

(** [conn.commit()]; [fail] is a failure injected by the store.  A commit
    that fails leaves the store as it was. *)
Definition commit (fail : bool) : M unit :=
  emit EvCommit ;;
  if fail then raise (DatabaseError OperationalError)
  else modify (fun c => mkConn (pending c) (pending c) (users_id_seq c)
                               (assets_id_seq c) (transactions_id_seq c)
                               (trace c)).

(** [conn.rollback()]: the open transaction is discarded.  [fail] says that
    the connection is gone (lost, or closed): the call then raises, as every
    call on such a connection does, and the transaction it was to discard
    has ended with the connection. *)
Definition rollback (fail : bool) : M unit :=
  emit EvRollback ;;
  modify (fun c => set_pending (committed c) c) ;;
  if fail then raise (DatabaseError InterfaceError) else pass.

(** [conn.close()]: what was not committed is lost. *)
Definition close : M unit :=
  emit EvClose ;;
  modify (fun c => set_pending (committed c) c).

(** [nextval] of the three sequences. *)
Definition nextval_users : M Z :=
  fun c => (Ok (users_id_seq c + 1),
            mkConn (committed c) (pending c) (users_id_seq c + 1)
                   (assets_id_seq c) (transactions_id_seq c) (trace c)).
Definition nextval_assets : M Z :=
  fun c => (Ok (assets_id_seq c + 1),
            mkConn (committed c) (pending c) (users_id_seq c)
                   (assets_id_seq c + 1) (transactions_id_seq c) (trace c)).
Definition nextval_transactions : M Z :=
  fun c => (Ok (transactions_id_seq c + 1),
            mkConn (committed c) (pending c) (users_id_seq c)
                   (assets_id_seq c) (transactions_id_seq c + 1) (trace c)).

(** ** SQL statements

    A table named as in the script has the columns and constraints the
    script declares for it.  A statement that raises leaves the rows and the
    catalog as they were before it. *)

Definition require_table (t : string) : M unit :=
  d ← get_pending;
  if bool_decide (t ∈ tables d) then mret tt
  else raise (DatabaseError (UndefinedTable t)).

(** [CREATE TABLE IF NOT EXISTS t (...)], where the columns of [t] reference
    the tables [refs]. *)
Definition create_table_if_not_exists (t : string) (refs : list string)
  : M unit :=
  d ← get_pending;
  if bool_decide (t ∈ tables d) then mret tt
  else (for_each require_table refs ;;
        put_pending (set_tables (tables d ++ [t]) d)).

(** [SELECT create_hypertable('transactions', 'ts', if_not_exists => TRUE)]:
    nothing to do for a hypertable; a plain table is converted only while it
    is empty. *)
Definition create_hypertable_transactions : M unit :=
  require_table "transactions" ;;
  d ← get_pending;
  if bool_decide ("transactions" ∈ hypertables d) then mret tt
  else match transactions d with
       | [] => put_pending (set_hypertables (hypertables d ++ ["transactions"]) d)
       | _ :: _ => raise (DatabaseError (TableNotEmpty "transactions"))
       end.

(** [SELECT 1 FROM pg_indexes WHERE tablename = 'assets' AND indexname =
    'assets_symbol_key'] followed by [cur.fetchone()]: is there a row? *)
Definition select_assets_symbol_key : M bool :=
  d ← get_pending;
  mret (bool_decide (("assets", "assets_symbol_key") ∈ indexes d)).

(** [CREATE UNIQUE INDEX assets_symbol_key ON assets(symbol)] *)
Definition create_unique_index_assets_symbol : M unit :=
  require_table "assets" ;;
  d ← get_pending;
  if bool_decide ("assets_symbol_key" ∈ (indexes d).*2)
  then raise (DatabaseError (DuplicateRelation "assets_symbol_key"))
  else if bool_decide (NoDup (a_symbol <$> assets d))
  then put_pending (set_indexes (indexes d ++ [("assets", "assets_symbol_key")]) d)
  else raise (DatabaseError (UniqueViolation "assets_symbol_key")).

(** [INSERT INTO users (name) VALUES (name) ON CONFLICT DO NOTHING].  The
    only unique constraint of [users] is its primary key, whose value comes
    from the sequence. *)
Definition insert_user (name : string) : M unit :=
  require_table "users" ;;
  id ← nextval_users;
  d ← get_pending;
  if bool_decide (id ∈ u_id <$> users d) then mret tt
  else put_pending (set_users (users d ++ [mkUser id name]) d).

(** [INSERT INTO assets (symbol, name) VALUES (symbol, name)
    ON CONFLICT (symbol) DO NOTHING].  The conflict target needs the unique
    index on [symbol]; the default of [id] is taken from the sequence before
    the conflict is looked for. *)
Definition insert_asset (symbol name : string) : M unit :=
  require_table "assets" ;;
  d ← get_pending;
  if bool_decide (("assets", "assets_symbol_key") ∈ indexes d) then
    id ← nextval_assets;
    if bool_decide (symbol ∈ a_symbol <$> assets d) then mret tt
    else if bool_decide (id ∈ a_id <$> assets d)
    then raise (DatabaseError (UniqueViolation "assets_pkey"))
    else put_pending (set_assets (assets d ++ [mkAsset id symbol name]) d)
  else raise (DatabaseError InvalidOnConflict).

(** The rows of one [INSERT INTO transactions (user_id, asset_id, amount,
    price_usd, ts) VALUES ...]: each row takes its [id] from the sequence and
    is checked against the primary key [(id, ts)] and the two foreign keys. *)
Fixpoint insert_tx_rows (d : db) (rows : list tx_values) (acc : list tx_row)
  : M (list tx_row) :=
  match rows with
  | [] => mret acc
  | (uid, aid, amount, price, ts) :: rows' =>
      id ← nextval_transactions;
      if bool_decide ((id, ts) ∈ (λ r, (t_id r, t_ts r)) <$> (transactions d ++ acc))
      then raise (DatabaseError (UniqueViolation "transactions_pkey"))
      else if negb (bool_decide (uid ∈ u_id <$> users d))
      then raise (DatabaseError (ForeignKeyViolation "transactions_user_id_fkey"))
      else if negb (bool_decide (aid ∈ a_id <$> assets d))
      then raise (DatabaseError (ForeignKeyViolation "transactions_asset_id_fkey"))
      else insert_tx_rows d rows' (acc ++ [mkTx id uid aid amount price ts])
  end.

(** One multi-row [INSERT INTO transactions]; [fail] is a failure injected
    by the store. *)
Definition insert_transactions (fail : bool) (rows : list tx_values) : M unit :=
  emit (EvInsertTransactions rows) ;;
  if fail then raise (DatabaseError OperationalError)
  else (require_table "transactions" ;;
        d ← get_pending;
        new ← insert_tx_rows d rows [];
        put_pending (set_transactions (transactions d ++ new) d)).

(** [psycopg2.extras.execute_values(cur, sql, rows)]: the rows are sent in
    pages of [page_size] (100 unless given), one statement per page, and no
    statement at all for no rows. *)
Fixpoint paginate_fuel {A} (fuel page_size : nat) (l : list A) : list (list A) :=
  match fuel, l with
  | S fuel', _ :: _ =>
      take page_size l :: paginate_fuel fuel' page_size (drop page_size l)
  | _, _ => []
  end.
Definition paginate {A} (page_size : nat) (l : list A) : list (list A) :=
  paginate_fuel (length l) page_size l.

Definition execute_values (fail : bool) (rows : list tx_values) : M unit :=
  for_each (insert_transactions fail) (paginate 100 rows).

(** ** The script *)

(** [ASSETS]: CoinGecko asset ids → (symbol, name), in the order written. *)
Definition ASSETS : list (string * (string * string)) :=
  [ ("bitcoin", ("BTC", "Bitcoin"));
    ("ethereum", ("ETH", "Ethereum")) ].

Definition POLL_SECONDS : Z := 30.

(** [d[k]] on a dict kept as its items in insertion order. *)
Fixpoint dict_get {V} (d : list (string * V)) (k : string) : result V :=
  match d with
  | [] => Raise (KeyError k)
  | (k', v) :: d' => if bool_decide (k' = k) then Ok v else dict_get d' k
  end.

Definition ensure_schema : M unit :=
  create_table_if_not_exists "users" [] ;;
  create_table_if_not_exists "assets" [] ;;
  create_table_if_not_exists "transactions" ["users"; "assets"] ;;
  create_hypertable_transactions ;;
  found ← select_assets_symbol_key;
  (if (found : bool) then pass else create_unique_index_assets_symbol) ;;
  commit false.

Definition seed_reference_data : M unit :=
  insert_user "Sarah" ;;
  for_each (λ '(_, (symbol, name)), insert_asset symbol name) ASSETS ;;
  commit false.

(** [{sym: aid for aid, sym in rows}]: a later row replaces an earlier one
    with the same symbol. *)
Definition sym_to_id (rows : list (Z * string)) : gmap string Z :=
  foldl (λ m '(aid, sym), <[sym := aid]> m) ∅ rows.

(** [rows] are those of [SELECT id, symbol FROM assets]; [fail] is a failure
    injected by the store. *)
Definition get_asset_id_map (fail : bool) : M (gmap string Z) :=
  emit EvSelectAssets ;;
  if fail then raise (DatabaseError OperationalError)
  else (require_table "assets" ;;
        d ← get_pending;
        let rows := (λ a, (a_id a, a_symbol a)) <$> assets d in
        mret (sym_to_id rows)).

(** ** The price fetch *)

(** The JSON object the API answers with: asset id → {currency: price}, as
    its items in document order. *)
Definition prices : Type := list (string * list (string * Q)).

(** What [requests.get(url, params, timeout=15)] meets: no answer within the
    timeout, no connection, or a response with its status code and its body
    ([None] when the body is not JSON). *)
Inductive http_outcome :=
| NetTimeout
| NetConnectionError
| NetResponse (status : Z) (body : option prices).

(** [r.raise_for_status()] raises for the client and server error codes. *)
Definition raise_for_status (status : Z) : result unit :=
  if (400 <=? status) && (status <? 600) then Raise (HTTPError status)
  else Ok tt.

Definition fetch_prices (net : http_outcome) : M prices :=
  let ids := String.concat "," (ASSETS.*1) in
  emit (EvHttpGet ids) ;;
  match net with
  | NetTimeout => raise Timeout
  | NetConnectionError => raise ConnectionError
  | NetResponse status body =>
      lift (raise_for_status status) ;;
      match body with
      | Some data => mret data
      | None => raise JSONDecodeError
      end
  end.

(** ** One ingest cycle *)

(** Where Ctrl+C can find a pass of the loop before its sleep.  Python
    raises [KeyboardInterrupt] in the main thread between two steps of the
    program, or out of a wait that the signal cuts short; a statement sent
    to the store has run when the exception is raised. *)
Inductive stage :=
| AtFetch       (* while [requests.get] waits for the answer *)
| AtSelect      (* after the fetch, before the [SELECT] *)
| AtRows        (* after the [SELECT], before [rows] is built *)
| AtInsert      (* after [rows] is built, before [execute_values] *)
| AtCommit      (* after the [INSERT], before [conn.commit()] *)
| AtPrint       (* after the commit, before the line is printed *)
| AtHandler.    (* in an [except] clause of the loop, before it prints *)

#[global] Instance stage_eq_dec : EqDecision stage.
Proof. solve_decision. Defined.

(** What one pass of the loop of [main] gets from outside: the outcome of
    the HTTP request, the clock, which of the three store calls of
    [ingest_once] the store fails, whether Ctrl+C arrives during the sleep,
    whether the rollback of the second handler fails, and whether and where
    Ctrl+C arrives before the sleep. *)
Record cycle_input := mkCycle {
  net : http_outcome;
  now : Z;
  fail_select : bool;
  fail_insert : bool;
  fail_commit : bool;
  interrupt : bool;
  fail_rollback : bool;
  sigint : option stage
}.

(** The [for cg_id, payload in data.items()] loop of [ingest_once], with
    [rows] as built so far. *)
Fixpoint build_rows (items : prices) (asset_id_by_symbol : gmap string Z)
    (ts : Z) (rows : list tx_values) : result (list tx_values) :=
  match items with
  | [] => Ok rows
  | (cg_id, payload) :: items' =>
      entry ← dict_get ASSETS cg_id;
      let symbol := entry.1 in
      asset_id ← match asset_id_by_symbol !! symbol with
                 | Some aid => Ok aid
                 | None => Raise (KeyError symbol)
                 end;
      price ← dict_get payload "usd";
      build_rows items' asset_id_by_symbol ts
                 (rows ++ [(1, asset_id, 1, price, ts)])
  end.

Definition ingest_once (w : cycle_input) : M unit :=
  data ← fetch_prices (net w);
  let ts := now w in
  asset_id_by_symbol ← get_asset_id_map (fail_select w);
  rows ← lift (build_rows data asset_id_by_symbol ts []);
  execute_values (fail_insert w) rows ;;
  commit (fail_commit w) ;;
  print (LogInserted ts (length rows)).

(** ** The driver loop *)

(** [try: body except e: handler(e)] *)
Definition try_except {A} (body : M A) (handler : exn → M A) : M A :=
  fun c => match body c with
           | (Ok a, c1) => (Ok a, c1)
           | (Raise e, c1) => handler e c1
           end.

(** [time.sleep(seconds)], during which Ctrl+C may arrive: [interrupted]
    stands for a Ctrl+C that finds the pass after its [try] statement. *)
Definition time_sleep (seconds : Z) (interrupted : bool) : M unit :=
  emit (EvSleep seconds) ;;
  if interrupted then raise KeyboardInterrupt else pass.

(** [KeyboardInterrupt] is raised here when Ctrl+C arrives at stage [s]. *)
Definition checkpoint (sig : option stage) (s : stage) : M unit :=
  if bool_decide (sig = Some s) then raise KeyboardInterrupt else pass.

(** [ingest_once] as the loop runs it, with Ctrl+C arriving where [sigint w]
    says: the statements of [ingest_once], cut short at that stage.  A
    request that was waiting for its answer has been sent. *)
Definition ingest_once_sigint (w : cycle_input) : M unit :=
  let sig := sigint w in
  data ← (if bool_decide (sig = Some AtFetch)
          then emit (EvHttpGet (String.concat "," (ASSETS.*1))) ;;
               raise KeyboardInterrupt
          else fetch_prices (net w));
  let ts := now w in
  checkpoint sig AtSelect ;;
  asset_id_by_symbol ← get_asset_id_map (fail_select w);
  checkpoint sig AtRows ;;
  rows ← lift (build_rows data asset_id_by_symbol ts []);
  checkpoint sig AtInsert ;;
  execute_values (fail_insert w) rows ;;
  checkpoint sig AtCommit ;;
  commit (fail_commit w) ;;
  checkpoint sig AtPrint ;;
  print (LogInserted ts (length rows)).

(** The [except] clauses of the loop: [requests.HTTPError] first, then
    [Exception]; what is neither goes on to the caller. *)
Definition handler (w : cycle_input) (e : exn) : M unit :=
  if isinstance_HTTPError e then
    checkpoint (sigint w) AtHandler ;;
    print (LogHttpError e)
  else if isinstance_Exception e then
    checkpoint (sigint w) AtHandler ;;
    print (LogIngestError e) ;;
    rollback (fail_rollback w)
  else raise e.

(** The body of [while True:] in [main]. *)
Definition loop_body (w : cycle_input) : M unit :=
  try_except (ingest_once_sigint w) (handler w) ;;
  time_sleep POLL_SECONDS (interrupt w).

(** [while True:] over the inputs of the cycles that are run; the loop has
    no exit of its own, so it is left only by an exception. *)
Fixpoint while_true (ws : list cycle_input) : M unit :=
  match ws with
  | [] => pass
  | w :: ws' => loop_body w ;; while_true ws'
  end.

(** How a run of the process stands after the cycles given to it. *)
Inductive status :=
| Polling                 (* still in the loop *)
| Exited                  (* main returned after Ctrl+C *)
| Crashed (e : exn).      (* an exception left the script *)

(** [main()], on the store behind [c].  [connect_ok] tells whether
    [psycopg2.connect] succeeds; a new connection sees what is committed. *)
Definition main (connect_ok : bool) (ws : list cycle_input) (c : conn)
  : status * conn :=
  if connect_ok then
    match (ensure_schema ;;
           seed_reference_data ;;
           print LogStarting ;;
           while_true ws) (set_pending (committed c) c) with
    | (Ok _, c1) => (Polling, c1)
    | (Raise KeyboardInterrupt, c1) =>
        (Exited, ((print LogStopping ;; close) c1).2)
    | (Raise e, c1) => (Crashed e, (close c1).2)
    end
  else (Crashed (DatabaseError OperationalError), c).

(** The script from its first line: [PGURL] is read from the environment
    (after [load_dotenv]), and [if not PGURL] holds for a missing and for an
    empty value. *)
Definition script (env : gmap string string) (connect_ok : bool)
    (ws : list cycle_input) (c : conn) : status * conn :=
  let PGURL := env !! "TIMESCALE_SERVICE_URL" in
  match PGURL with
  | None | Some "" =>
      (Crashed (RuntimeError "TIMESCALE_SERVICE_URL not found in .env"), c)
  | Some _ => main connect_ok ws c
  end.

(** ** Operations of the system *)

(** Everything the script can do to the store: its functions, one pass of
    the loop, a whole run of [main] or of the script, and the two connection
    calls of the error paths. *)
Inductive op :=
| OpEnsureSchema
| OpSeedReferenceData
| OpGetAssetIdMap (fail : bool)
| OpFetchPrices (n : http_outcome)
| OpIngestOnce (w : cycle_input)
| OpLoopBody (w : cycle_input)
| OpWhileTrue (ws : list cycle_input)
| OpRollback (fail : bool)
| OpClose
| OpMain (connect_ok : bool) (ws : list cycle_input)
| OpScript (env : gmap string string) (connect_ok : bool)
           (ws : list cycle_input).

Definition run_op (o : op) (c : conn) : conn :=
  match o with
  | OpEnsureSchema => (ensure_schema c).2
  | OpSeedReferenceData => (seed_reference_data c).2
  | OpGetAssetIdMap fail => (get_asset_id_map fail c).2
  | OpFetchPrices n => (fetch_prices n c).2
  | OpIngestOnce w => (ingest_once_sigint w c).2
  | OpLoopBody w => (loop_body w c).2
  | OpWhileTrue ws => (while_true ws c).2
  | OpRollback fail => (rollback fail c).2
  | OpClose => (close c).2
  | OpMain connect_ok ws => (main connect_ok ws c).2
  | OpScript env connect_ok ws => (script env connect_ok ws c).2
  end.

Definition run_ops (os : list op) (c : conn) : conn :=
  foldl (λ c o, run_op o c) c os.

(** The states of the system: what any sequence of operations makes of the
    empty database. *)
Inductive reachable : conn → Prop :=
| reachable_fresh : reachable fresh
| reachable_step o c : reachable c → reachable (run_op o c).

(** ** State predicates *)

(** Nothing is uncommitted: the state of a connection between two cycles. *)
Definition quiescent (c : conn) : Prop := pending c = committed c.

(** Referential integrity of the observations of [d], and unique symbols. *)
Definition references_ok (d : db) (r : tx_row) : Prop :=
  t_user_id r ∈ u_id <$> users d ∧ t_asset_id r ∈ a_id <$> assets d.

Definition db_ok (d : db) : Prop :=
  NoDup (a_symbol <$> assets d) ∧ Forall (references_ok d) (transactions d).

(** ** Relations that every operation respects *)

(** The elementary changes of a connection.  A preorder that contains them
    contains the effect of every statement on rows, of the sequences and of
    the trace. *)
Class Atomic (R : relation conn) : Prop := {
  atomic_preorder :: PreOrder R;
  atomic_aux c u a t tr :
    R c (mkConn (committed c) (pending c) u a t tr);
  atomic_user c u :
    R c (set_pending (set_users (users (pending c) ++ [u]) (pending c)) c);
  atomic_asset c a :
    a_symbol a ∉ a_symbol <$> assets (pending c) →
    R c (set_pending (set_assets (assets (pending c) ++ [a]) (pending c)) c);
  atomic_tx c new :
    "transactions" ∈ tables (pending c) →
    Forall (references_ok (pending c)) new →
    R c (set_pending
           (set_transactions (transactions (pending c) ++ new) (pending c)) c);
  atomic_rollback c : R c (set_pending (committed c) c)
}.

(** ... the ones on the catalog ... *)
Class Cataloguing (R : relation conn) : Prop :=
  atomic_catalog c ts ix hs :
    R c (set_pending (mkDb ts ix hs (users (pending c)) (assets (pending c))
                           (transactions (pending c))) c).

(** ... and the one that commits. *)
Class Committing (R : relation conn) : Prop :=
  atomic_commit c :
    R c (mkConn (pending c) (pending c) (users_id_seq c) (assets_id_seq c)
                (transactions_id_seq c) (trace c)).

Definition respects {A} (R : relation conn) (m : M A) : Prop :=
  ∀ c, R c (m c).2.

(** Relations used below.  [tx_extends]: the committed observations stay
    where they are, as a prefix of what is there later, for a connection
    whose open transaction has only added rows.  [keeps_ok]: integrity is
    kept.  [same_committed]: nothing was committed. *)
Definition tx_extends (c c1 : conn) : Prop :=
  transactions (committed c) `prefix_of` transactions (pending c) →
  transactions (committed c1) `prefix_of` transactions (pending c1) ∧
  transactions (committed c) `prefix_of` transactions (committed c1).

Definition keeps_ok (c c1 : conn) : Prop :=
  db_ok (committed c) ∧ db_ok (pending c) →
  db_ok (committed c1) ∧ db_ok (pending c1).

Definition same_committed (c c1 : conn) : Prop := committed c1 = committed c.

(** The response of the example in the specification. *)
Definition response_btc_eth : prices :=
  [ ("bitcoin", [("usd", 67000 # 1)]);
    ("ethereum", [("usd", 3500 # 1)]) ]%Q.

(** A store that was bootstrapped and seeded, between two cycles: the two
    tables of the cycle exist, symbols are unique, the demo actor has the id
    1 that [ingest_once] writes, and the sequence of [transactions] is ahead
    of the ids in the table. *)
Definition seeded (c : conn) : Prop :=
  quiescent c ∧
  "assets" ∈ tables (committed c) ∧
  "transactions" ∈ tables (committed c) ∧
  NoDup (a_symbol <$> assets (committed c)) ∧
  1 ∈ u_id <$> users (committed c) ∧
  Forall (λ r, t_id r ≤ transactions_id_seq c) (transactions (committed c)).

(** The rows an [INSERT] makes of [rows] when the sequence stands at
    [last]. *)
Fixpoint with_ids (last : Z) (rows : list tx_values) : list tx_row :=
  match rows with
  | [] => []
  | (uid, aid, amount, price, ts) :: rows' =>
      mkTx (last + 1) uid aid amount price ts :: with_ids (last + 1) rows'
  end.

Definition set_transactions_id_seq (z : Z) (c : conn) : conn :=
  mkConn (committed c) (pending c) (users_id_seq c) (assets_id_seq c) z
         (trace c).

(** The exceptions [m] can raise are among [P]. *)
Definition raises_only {A} (P : exn → Prop) (m : M A) : Prop :=
  ∀ c e, (m c).1 = Raise e → P e.

(** The errors of the store calls and of the lookups of [ingest_once]. *)
Definition store_or_lookup_error (e : exn) : Prop :=
  match e with
  | DatabaseError _ | KeyError _ => True
  | _ => False
  end.

(** The first handler of [main] ran: the cycle was skipped with the HTTP
    warning and nothing else, rollback included, happened before the
    sleep. *)
Definition network_branch (w : cycle_input) (c : conn) : Prop :=
  ∃ e, trace (loop_body w c).2 =
         trace c ++ [ EvHttpGet "bitcoin,ethereum";
                      EvPrint (LogHttpError e);
                      EvSleep POLL_SECONDS ].

(** What the handlers of [main] add to the trace for a cycle that raised
    [e]. *)
Definition handler_events (e : exn) : list event :=
  if isinstance_HTTPError e then [EvPrint (LogHttpError e)]
  else [EvPrint (LogIngestError e); EvRollback].

(** The state in which the second handler leaves a cycle that raised [e]:
    the error is logged and the open transaction is gone. *)
Definition rolled_back (e : exn) (c : conn) : conn :=
  set_pending (committed c)
    (log_event EvRollback (log_event (EvPrint (LogIngestError e)) c)).

(** How a pass of the loop hands over to the next: normally, unless Ctrl+C
    arrived during the sleep. *)
Definition pass_result (w : cycle_input) : result unit :=
  if interrupt w then Raise KeyboardInterrupt else Ok tt.


(** The catalog after a bootstrap: the three tables, the hypertable and the
    unique index are there. *)
Definition schema_ready (d : db) : Prop :=
  "users" ∈ tables d ∧ "assets" ∈ tables d ∧ "transactions" ∈ tables d ∧
  "transactions" ∈ hypertables d ∧
  ("assets", "assets_symbol_key") ∈ indexes d.

(** No table, index or hypertable is there twice. *)
Definition catalog_nodup (d : db) : Prop :=
  NoDup (tables d) ∧ NoDup (indexes d).*2 ∧ NoDup (hypertables d).

(** The catalog of the open transaction has only gained objects, none
    twice, and no index but the one on symbols; the rows are the same. *)
Definition catalog_grows (c c1 : conn) : Prop :=
  tables (pending c) ⊆ tables (pending c1) ∧
  indexes (pending c) ⊆ indexes (pending c1) ∧
  hypertables (pending c) ⊆ hypertables (pending c1) ∧
  (catalog_nodup (pending c) → catalog_nodup (pending c1)) ∧
  indexes (pending c1)
    ⊆ indexes (pending c) ++ [("assets", "assets_symbol_key")] ∧
  (users (pending c1), assets (pending c1), transactions (pending c1)) =
    (users (pending c), assets (pending c), transactions (pending c)).

(** What every state of the system has, and what lets a bootstrap return:
    [transactions] is a hypertable if it exists and has no rows if it does
    not, the index name of the script is on [assets] only, symbols are
    unique, and the catalog has nothing twice. *)
Definition bootable (d : db) : Prop :=
  ("transactions" ∈ tables d → "transactions" ∈ hypertables d) ∧
  ("transactions" ∉ tables d → transactions d = []) ∧
  (∀ t, (t, "assets_symbol_key") ∈ indexes d → t = "assets") ∧
  NoDup (a_symbol <$> assets d) ∧
  catalog_nodup d.

Definition keeps_bootable (c c1 : conn) : Prop :=
  bootable (committed c) ∧ bootable (pending c) →
  bootable (committed c1) ∧ bootable (pending c1).

(** ** Example inputs *)

(** The store after a first start of [main] on an empty database. *)
Definition seeded_store : conn := (main true [] fresh).2.

(** A cycle in which everything works, and cycles in which one thing fails. *)
Definition example_cycle : cycle_input :=
  mkCycle (NetResponse 200 (Some response_btc_eth)) 1762190000000000
          false false false false false None.
Definition timeout_cycle : cycle_input :=
  mkCycle NetTimeout 1762190030000000 false false false false false None.
Definition http_error_cycle : cycle_input :=
  mkCycle (NetResponse 503 None) 1762190030000000
          false false false false false None.
Definition insert_failure_cycle : cycle_input :=
  mkCycle (NetResponse 200 (Some response_btc_eth)) 1762190030000000
          false true false false false None.
Definition commit_failure_cycle : cycle_input :=
  mkCycle (NetResponse 200 (Some response_btc_eth)) 1762190030000000
          false false true false false None.
Definition unknown_asset_cycle : cycle_input :=
  mkCycle (NetResponse 200 (Some [("solana", [("usd", (150 # 1)%Q)])]))
          1762190030000000 false false false false false None.

(** The store after a first start and one good cycle. *)
Definition running_store : conn := (main true [example_cycle] fresh).2.

(** ** Further state predicates *)

(** The two calls with which [main] starts, on a new connection to the
    store behind [c]. *)
Definition startup (c : conn) : result unit * conn :=
  (ensure_schema ;; seed_reference_data) (set_pending (committed c) c).

(** A cycle during whose sleep Ctrl+C arrives. *)
Definition interrupted_cycle : cycle_input :=
  mkCycle (NetResponse 200 (Some response_btc_eth)) 1762190060000000
          false false false true false None.

(** An item [(cg_id, payload)] of a response can be turned into a row
    against the rows [xs] of [assets]: its id is a key of [ASSETS], the
    symbol of that entry is the symbol of a row, and the payload has a
    ["usd"] entry. *)
Definition resolvable (xs : list asset_row) (item : string * list (string * Q))
  : Prop :=
  ∃ sym name, (item.1, (sym, name)) ∈ ASSETS ∧
              sym ∈ a_symbol <$> xs ∧
              "usd" ∈ item.2.*1.

(** The observation [r] is the one [ingest_once] makes of [item] at [ts]:
    actor 1, amount 1, the ["usd"] price of the item, and the id of a row of
    [xs] that has the symbol [ASSETS] gives for the item. *)
Definition records (xs : list asset_row) (ts : Z)
    (item : string * list (string * Q)) (r : tx_row) : Prop :=
  t_user_id r = 1 ∧ t_amount r = 1 ∧ t_ts r = ts ∧
  dict_get item.2 "usd" = Ok (t_price_usd r) ∧
  ∃ sym name a, (item.1, (sym, name)) ∈ ASSETS ∧ a ∈ xs ∧
                a_symbol a = sym ∧ a_id a = t_asset_id r.

(** The tuple [v] of [rows] is the one the loop of [ingest_once] makes of
    [item]. *)
Definition row_of_item (xs : list asset_row) (ts : Z)
    (item : string * list (string * Q)) (v : tx_values) : Prop :=
  ∃ aid price, v = (1, aid, 1, price, ts) ∧
               dict_get item.2 "usd" = Ok price ∧
               ∃ sym name a, (item.1, (sym, name)) ∈ ASSETS ∧ a ∈ xs ∧
                             a_symbol a = sym ∧ a_id a = aid.

(** Cycles on an empty response and on a response without a price. *)
Definition empty_response_cycle : cycle_input :=
  mkCycle (NetResponse 200 (Some [])) 1762190030000000
          false true false false false None.
Definition missing_price_cycle : cycle_input :=
  mkCycle (NetResponse 200 (Some [("bitcoin", [("eur", (61000 # 1)%Q)])]))
          1762190030000000 false false false false false None.

(** The catalog of a database. *)
Definition catalog (d : db) : list string * list (string * string) * list string :=
  (tables d, indexes d, hypertables d).

(** What the statements of the seeding do to the open transaction: the
    catalog and the observations are the same, actor and asset rows are only
    added, and nothing is committed. *)
Definition seeds (c c1 : conn) : Prop :=
  committed c1 = committed c ∧
  catalog (pending c1) = catalog (pending c) ∧
  transactions (pending c1) = transactions (pending c) ∧
  users (pending c) `prefix_of` users (pending c1) ∧
  assets (pending c) `prefix_of` assets (pending c1) ∧
  transactions_id_seq c1 = transactions_id_seq c.

(** A store without the unique index on symbols, as a bootstrap that
    skipped its last statement would leave it. *)
Definition unindexed_store : conn :=
  (( create_table_if_not_exists "users" [] ;;
     create_table_if_not_exists "assets" [] ;;
     commit false ) fresh).2.

(** Two more relations that the operations respect.  [refs_extend]: the
    committed actor and asset rows stay where they are, as prefixes of what
    is there later.  [keeps_catalog]: the catalog is not touched. *)
Definition refs_extend (c c1 : conn) : Prop :=
  users (committed c) `prefix_of` users (pending c) ∧
  assets (committed c) `prefix_of` assets (pending c) →
  (users (committed c1) `prefix_of` users (pending c1) ∧
   assets (committed c1) `prefix_of` assets (pending c1)) ∧
  users (committed c) `prefix_of` users (committed c1) ∧
  assets (committed c) `prefix_of` assets (committed c1).

Definition keeps_catalog (c c1 : conn) : Prop :=
  catalog (pending c) = catalog (committed c) →
  catalog (pending c1) = catalog (committed c1) ∧
  catalog (committed c1) = catalog (committed c).

(** The parts of [seeded] that concern one database, and the relation of
    keeping them. *)
Definition static_ok (d : db) : Prop :=
  "assets" ∈ tables d ∧ "transactions" ∈ tables d ∧
  NoDup (a_symbol <$> assets d) ∧ 1 ∈ u_id <$> users d.

Definition keeps_static (c c1 : conn) : Prop :=
  static_ok (committed c) ∧ static_ok (pending c) →
  static_ok (committed c1) ∧ static_ok (pending c1).

(** The sequence of [transactions] is ahead of the ids the open transaction
    sees and of the committed ones, and it only moves forward. *)
Definition seq_bound (c : conn) : Prop :=
  Forall (λ r, t_id r ≤ transactions_id_seq c) (transactions (pending c)).

Definition committed_bound (c : conn) : Prop :=
  Forall (λ r, t_id r ≤ transactions_id_seq c) (transactions (committed c)).

Definition seq_advances (c c1 : conn) : Prop :=
  transactions_id_seq c ≤ transactions_id_seq c1 ∧
  (seq_bound c ∧ committed_bound c → seq_bound c1 ∧ committed_bound c1).

(** What a seeded store keeps when a pass is cut short: all of [seeded] but
    that nothing is pending. *)
Definition store_seeded (c : conn) : Prop :=
  (static_ok (committed c) ∧ static_ok (pending c)) ∧
  seq_bound c ∧ committed_bound c.

(** A seeded store on which the script can be started again: the bootstrap
    has been run on it, and every symbol of [ASSETS] has its row. *)
Definition restartable (c : conn) : Prop :=
  seeded c ∧ schema_ready (committed c) ∧
  ∀ cg sym name, (cg, (sym, name)) ∈ ASSETS →
                 sym ∈ a_symbol <$> assets (committed c).

(** The events of the store calls and of the printed lines: everything but
    a request, a sleep and the closing of the connection. *)
Definition store_event (e : event) : Prop :=
  match e with
  | EvHttpGet _ | EvSleep _ | EvClose => False
  | _ => True
  end.

Definition logs_store_events (c c1 : conn) : Prop :=
  ∃ more, trace c1 = trace c ++ more ∧ Forall store_event more.

(** ** Passes that get to their sleep *)

(** Nothing from outside cuts the pass short: Ctrl+C does not arrive before
    the sleep, and the rollback of the second handler, if it is called,
    returns. *)
Definition undisturbed (w : cycle_input) : Prop :=
  sigint w = None ∧ fail_rollback w = false.

(** The request of a cycle times out, or is answered with a client or server
    error status. *)
Definition timeout_or_error_status (n : http_outcome) : Prop :=
  n = NetTimeout ∨
  ∃ status body, n = NetResponse status body ∧ 400 ≤ status < 600.

(** A cycle whose [INSERT] fails because the connection to the store is
    lost, so that the rollback of the handler fails too; a cycle whose
    request is answered with a status that is neither a success nor an error
    of [raise_for_status]; and a cycle in which Ctrl+C arrives between the
    [INSERT] and the commit. *)
Definition lost_connection_cycle : cycle_input :=
  mkCycle (NetResponse 200 (Some response_btc_eth)) 1762190030000000
          false true false false true None.
Definition redirect_cycle : cycle_input :=
  mkCycle (NetResponse 302 (Some response_btc_eth)) 1762190030000000
          false false false false false None.
Definition ctrl_c_cycle : cycle_input :=
  mkCycle (NetResponse 200 (Some response_btc_eth)) 1762190030000000
          false false false false false (Some AtCommit).

(** Deciding a closed proposition by evaluation. *)
Ltac decide_closed := apply (bool_decide_unpack _); vm_compute; exact I.

Ltac munfold :=
  unfold mbind, M_bind, mret, M_ret, raise, lift, modify, emit, print, pass,
    get_pending, put_pending, nextval_users, nextval_assets,
    nextval_transactions, log_event in *;
  simpl in *.

(** ** Every operation respects the relations *)

Section Respects.
Context (R : relation conn) `{!Atomic R}.

Lemma respects_ret {A} (a : A) : respects R (mret a).
Proof. intros c. reflexivity. Qed.

Lemma respects_raise {A} e : respects R (@raise A e).
Proof. intros c. reflexivity. Qed.

Lemma respects_lift {A} (r : result A) : respects R (lift r).
Proof. intros c. reflexivity. Qed.

Lemma respects_bind {A B} (m : M A) (k : A → M B) :
  respects R m → (∀ a, respects R (k a)) → respects R (m ≫= k).
Proof.
  intros Hm Hk c. unfold mbind, M_bind.
  specialize (Hm c). destruct (m c) as [[a|e] c1]; simpl in *.
  - etrans; [exact Hm | apply Hk].
  - exact Hm.
Qed.

Lemma respects_for_each {A} (body : A → M unit) xs :
  (∀ x, respects R (body x)) → respects R (for_each body xs).
Proof.
  intros Hb. induction xs as [|x xs IH]; simpl.
  - apply respects_ret.
  - apply respects_bind; auto.
Qed.

Lemma respects_try_except {A} (body : M A) handler :
  respects R body → (∀ e, respects R (handler e)) →
  respects R (try_except body handler).
Proof.
  intros Hb Hh c. unfold try_except.
  specialize (Hb c). destruct (body c) as [[a|e] c1]; simpl in *.
  - exact Hb.
  - etrans; [exact Hb | apply Hh].
Qed.

Lemma respects_emit e : respects R (emit e).
Proof. intros c. apply atomic_aux. Qed.

Lemma respects_get_pending : respects R get_pending.
Proof. intros c. reflexivity. Qed.

Lemma respects_require_table t : respects R (require_table t).
Proof.
  intros c. unfold require_table. munfold.
  case_bool_decide; reflexivity.
Qed.

Lemma require_table_state t c : (require_table t c).2 = c.
Proof. unfold require_table. munfold. by case_bool_decide. Qed.

Lemma for_each_require_table_state ts c :
  (for_each require_table ts c).2 = c.
Proof.
  revert c. induction ts as [|t ts IH]; intros c; simpl; [done|].
  unfold mbind, M_bind.
  pose proof (require_table_state t c) as Ht.
  destruct (require_table t c) as [[[]|e] c1]; simpl in *; subst; auto.
Qed.
Lemma respects_create_table `{!Cataloguing R} t refs :
  respects R (create_table_if_not_exists t refs).
Proof.
  intros c. unfold create_table_if_not_exists. munfold.
  case_bool_decide; [reflexivity|].
  pose proof (for_each_require_table_state refs c) as Hs.
  destruct (for_each require_table refs c) as [[[]|e] c1];
    simpl in *; subst c1; [|reflexivity].
  apply atomic_catalog.
Qed.

Lemma respects_create_hypertable `{!Cataloguing R} :
  respects R create_hypertable_transactions.
Proof.
  intros c. unfold create_hypertable_transactions, require_table. munfold.
  repeat (case_bool_decide; simpl); try reflexivity.
  destruct (transactions (pending c)); simpl; [|reflexivity].
  apply atomic_catalog.
Qed.

Lemma respects_select_index : respects R select_assets_symbol_key.
Proof. intros c. reflexivity. Qed.

Lemma respects_create_index `{!Cataloguing R} :
  respects R create_unique_index_assets_symbol.
Proof.
  intros c. unfold create_unique_index_assets_symbol, require_table. munfold.
  repeat (case_bool_decide; simpl); try reflexivity.
  apply atomic_catalog.
Qed.

Lemma respects_insert_user name : respects R (insert_user name).
Proof.
  intros c. unfold insert_user, require_table. munfold.
  repeat (case_bool_decide; simpl);
    try reflexivity; try apply atomic_aux.
  etrans; [apply (atomic_aux c (users_id_seq c + 1) (assets_id_seq c)
                             (transactions_id_seq c) (trace c))|].
  exact (atomic_user (mkConn _ _ _ _ _ _) _).
Qed.

Lemma respects_insert_asset symbol name : respects R (insert_asset symbol name).
Proof.
  intros c. unfold insert_asset, require_table. munfold.
  repeat (case_bool_decide; simpl); try reflexivity; try apply atomic_aux.
  etrans; [apply (atomic_aux c (users_id_seq c) (assets_id_seq c + 1)
                             (transactions_id_seq c) (trace c))|].
  by apply (atomic_asset (mkConn _ _ _ _ _ _) (mkAsset _ _ _)).
Qed.

Lemma respects_rollback fail : respects R (rollback fail).
Proof.
  apply respects_bind; [apply respects_emit|]. intros _.
  apply respects_bind; [intros c; apply atomic_rollback|]. intros _.
  destruct fail; [apply respects_raise | apply respects_ret].
Qed.

Lemma respects_checkpoint sig s : respects R (checkpoint sig s).
Proof.
  unfold checkpoint. case_bool_decide; [apply respects_raise | apply respects_ret].
Qed.

Lemma respects_close : respects R close.
Proof.
  apply respects_bind; [apply respects_emit|].
  intros _ c. apply atomic_rollback.
Qed.

Lemma respects_commit_fails : respects R (commit true).
Proof.
  apply respects_bind; [apply respects_emit|].
  intros _. apply respects_raise.
Qed.

Lemma respects_commit `{!Committing R} fail : respects R (commit fail).
Proof.
  destruct fail; [apply respects_commit_fails|].
  apply respects_bind; [apply respects_emit|].
  intros _ c. apply atomic_commit.
Qed.

Lemma respects_time_sleep s i : respects R (time_sleep s i).
Proof.
  apply respects_bind; [apply respects_emit|].
  intros _. destruct i; [apply respects_raise | apply respects_ret].
Qed.

Lemma respects_fetch_prices n : respects R (fetch_prices n).
Proof.
  unfold fetch_prices. apply respects_bind; [apply respects_emit|].
  intros _. destruct n as [| |status body];
    [apply respects_raise | apply respects_raise |].
  apply respects_bind; [apply respects_lift|].
  intros _. destruct body; [apply respects_ret | apply respects_raise].
Qed.

Lemma respects_get_asset_id_map fail : respects R (get_asset_id_map fail).
Proof.
  unfold get_asset_id_map. apply respects_bind; [apply respects_emit|].
  intros _. destruct fail; [apply respects_raise|].
  apply respects_bind; [apply respects_require_table|].
  intros _. apply respects_bind; [apply respects_get_pending|].
  intros d. apply respects_ret.
Qed.
Lemma insert_tx_rows_spec d rows acc c r c1 :
  insert_tx_rows d rows acc c = (r, c1) →
  (∃ z, c1 = mkConn (committed c) (pending c) (users_id_seq c)
                    (assets_id_seq c) z (trace c)) ∧
  (∀ new, r = Ok new →
          ∃ more, new = acc ++ more ∧ Forall (references_ok d) more).
Proof.
  revert acc c. induction rows as [|[[[[uid aid] amount] price] ts] rows IH];
    intros acc c; simpl.
  - munfold. intros [= <- <-]. split; [destruct c; eauto|].
    intros new [= <-]. exists []. by rewrite app_nil_r.
  - munfold.
    repeat (case_bool_decide; simpl);
      try (intros [= <- <-]; split; [eauto | discriminate]).
    intros Hrec. apply IH in Hrec as [[z ->] Hnew]. simpl.
    split; [eauto|].
    intros new Hr. destruct (Hnew new Hr) as (more & -> & Hmore).
    eexists (_ :: more). split; [by rewrite <- app_assoc|].
    constructor; [by split | done].
Qed.

Lemma respects_insert_transactions fail rows :
  respects R (insert_transactions fail rows).
Proof.
  intros c. unfold insert_transactions, require_table. munfold.
  destruct fail; simpl; [apply atomic_aux|].
  case_bool_decide as Ht; simpl; [|apply atomic_aux].
  match goal with
  | |- context [insert_tx_rows ?d ?rs ?acc ?c0] =>
      destruct (insert_tx_rows d rs acc c0) as [r c1] eqn:Hins
  end.
  apply insert_tx_rows_spec in Hins as [[z ->] Hnew]. simpl in *.
  destruct r as [new|e]; simpl.
  - destruct (Hnew new eq_refl) as (more & -> & Hmore). simpl.
    etrans; [apply (atomic_aux c (users_id_seq c) (assets_id_seq c) z
                               (trace c ++ [EvInsertTransactions rows]))|].
    exact (atomic_tx (mkConn _ _ _ _ _ _) more Ht Hmore).
  - apply atomic_aux.
Qed.

Lemma respects_execute_values fail rows :
  respects R (execute_values fail rows).
Proof.
  apply respects_for_each. intros page.
  apply respects_insert_transactions.
Qed.

Lemma respects_seed_reference_data `{!Committing R} :
  respects R seed_reference_data.
Proof.
  unfold seed_reference_data.
  apply respects_bind; [apply respects_insert_user|]. intros _.
  apply respects_bind.
  - apply respects_for_each. intros [? [symbol name]].
    apply respects_insert_asset.
  - intros _. apply respects_commit.
Qed.

Lemma respects_ensure_schema `{!Cataloguing R} `{!Committing R} :
  respects R ensure_schema.
Proof.
  unfold ensure_schema.
  repeat (apply respects_bind; [apply respects_create_table|]; intros _).
  apply respects_bind; [apply respects_create_hypertable|]. intros _.
  apply respects_bind; [apply respects_select_index|]. intros found.
  apply respects_bind; [|intros _; apply respects_commit].
  destruct found; [apply respects_ret | apply respects_create_index].
Qed.

Lemma respects_ingest_once `{!Committing R} w : respects R (ingest_once w).
Proof.
  unfold ingest_once.
  apply respects_bind; [apply respects_fetch_prices|]. intros data.
  apply respects_bind; [apply respects_get_asset_id_map|]. intros m.
  apply respects_bind; [apply respects_lift|]. intros rows.
  apply respects_bind; [apply respects_execute_values|]. intros _.
  apply respects_bind; [apply respects_commit|]. intros _.
  apply respects_emit.
Qed.

Lemma respects_ingest_once_sigint `{!Committing R} w :
  respects R (ingest_once_sigint w).
Proof.
  unfold ingest_once_sigint.
  apply respects_bind.
  { case_bool_decide; [|apply respects_fetch_prices].
    apply respects_bind; [apply respects_emit|].
    intros _. apply respects_raise. }
  intros data.
  apply respects_bind; [apply respects_checkpoint|]. intros _.
  apply respects_bind; [apply respects_get_asset_id_map|]. intros m.
  apply respects_bind; [apply respects_checkpoint|]. intros _.
  apply respects_bind; [apply respects_lift|]. intros rows.
  apply respects_bind; [apply respects_checkpoint|]. intros _.
  apply respects_bind; [apply respects_execute_values|]. intros _.
  apply respects_bind; [apply respects_checkpoint|]. intros _.
  apply respects_bind; [apply respects_commit|]. intros _.
  apply respects_bind; [apply respects_checkpoint|]. intros _.
  apply respects_emit.
Qed.

Lemma respects_handler w e : respects R (handler w e).
Proof.
  unfold handler. destruct (isinstance_HTTPError e).
  { apply respects_bind; [apply respects_checkpoint|].
    intros _. apply respects_emit. }
  destruct (isinstance_Exception e); [|apply respects_raise].
  apply respects_bind; [apply respects_checkpoint|]. intros _.
  apply respects_bind; [apply respects_emit|].
  intros _. apply respects_rollback.
Qed.

Lemma respects_loop_body `{!Committing R} w : respects R (loop_body w).
Proof.
  unfold loop_body.
  apply respects_bind; [|intros _; apply respects_time_sleep].
  apply respects_try_except;
    [apply respects_ingest_once_sigint | apply respects_handler].
Qed.

Lemma respects_while_true `{!Committing R} ws : respects R (while_true ws).
Proof.
  induction ws as [|w ws IH]; simpl; [apply respects_ret|].
  apply respects_bind; [apply respects_loop_body | auto].
Qed.

(** The bootstrap is the one function that changes the catalog: what
    follows takes it as it comes. *)
Lemma respects_main `{!Committing R} connect_ok ws c :
  respects R ensure_schema → R c (main connect_ok ws c).2.
Proof.
  intros Hschema. unfold main. destruct connect_ok; [|reflexivity].
  assert (respects R (ensure_schema ;; seed_reference_data ;;
                      print LogStarting ;; while_true ws)) as Hrun.
  { apply respects_bind; [exact Hschema|]. intros _.
    apply respects_bind; [apply respects_seed_reference_data|]. intros _.
    apply respects_bind; [apply respects_emit|]. intros _.
    apply respects_while_true. }
  specialize (Hrun (set_pending (committed c) c)).
  etrans; [apply atomic_rollback|].
  destruct ((ensure_schema ;; seed_reference_data ;;
             print LogStarting ;; while_true ws)
              (set_pending (committed c) c)) as [[[]|e] c1]; simpl in *.
  - exact Hrun.
  - assert (R c1 (close c1).2) as Hclose by apply respects_close.
    assert (R c1 ((print LogStopping ;; close) c1).2) as Hstop.
    { apply respects_bind; [apply respects_emit|].
      intros _. apply respects_close. }
    destruct e; simpl; etrans; eauto.
Qed.

Lemma respects_script `{!Committing R} env connect_ok ws c :
  respects R ensure_schema → R c (script env connect_ok ws c).2.
Proof.
  intros Hschema. unfold script.
  destruct (env !! "TIMESCALE_SERVICE_URL") as [[|]|]; simpl;
    try reflexivity.
  by apply respects_main.
Qed.

Lemma respects_run_op `{!Committing R} o c :
  respects R ensure_schema → R c (run_op o c).
Proof.
  intros Hschema. destruct o; simpl.
  - apply Hschema.
  - apply respects_seed_reference_data.
  - apply respects_get_asset_id_map.
  - apply respects_fetch_prices.
  - apply respects_ingest_once_sigint.
  - apply respects_loop_body.
  - apply respects_while_true.
  - apply respects_rollback.
  - apply respects_close.
  - by apply respects_main.
  - by apply respects_script.
Qed.

Lemma respects_run_ops `{!Committing R} os c :
  respects R ensure_schema → R c (run_ops os c).
Proof.
  intros Hschema. revert c.
  induction os as [|o os IH]; intros c; simpl; [reflexivity|].
  etrans; [by apply respects_run_op | apply IH].
Qed.
End Respects.

(** ** Instances for the relations *)

#[local] Instance same_committed_atomic : Atomic same_committed.
Proof.
  split; [split|..]; unfold same_committed; try done.
  intros x y z Hxy Hyz. by rewrite Hyz.
Qed.

#[local] Instance tx_extends_atomic : Atomic tx_extends.
Proof.
  split; [split|..]; unfold tx_extends; simpl; try done.
  - intros x y z Hxy Hyz H.
    destruct (Hxy H) as [Hy Hxy']. destruct (Hyz Hy) as [Hz Hyz'].
    split; [done | by etrans].
  - intros c new _ _ H. split; [by apply prefix_app_r | done].
Qed.

#[local] Instance tx_extends_cataloguing : Cataloguing tx_extends.
Proof. by intros c ts ix hs H. Qed.

#[local] Instance tx_extends_committing : Committing tx_extends.
Proof. intros c H. simpl. done. Qed.

Lemma references_ok_mono d d' r :
  users d ⊆ users d' → assets d ⊆ assets d' →
  references_ok d r → references_ok d' r.
Proof.
  intros Hu Ha [H1 H2]. split.
  - apply list_elem_of_fmap in H1 as (u & -> & Hin).
    apply list_elem_of_fmap. eauto.
  - apply list_elem_of_fmap in H2 as (a & -> & Hin).
    apply list_elem_of_fmap. eauto.
Qed.

#[local] Instance keeps_ok_atomic : Atomic keeps_ok.
Proof.
  split; [split|..]; unfold keeps_ok, db_ok; simpl; try done.
  - by intros c H.
  - intros x y z Hxy Hyz H. auto.
  - intros c u [Hc [Hn Hr]]. split; [done|]. split; [done|].
    eapply Forall_impl; [exact Hr|]. intros r.
    apply references_ok_mono; simpl; [|done].
    intros x Hx. apply elem_of_app. by left.
  - intros c a Hfresh [Hc [Hn Hr]]. split; [done|]. split.
    + rewrite fmap_app. apply NoDup_app. split; [done|].
      split; [|apply NoDup_singleton].
      intros s Hs Hs'. apply list_elem_of_singleton in Hs'. by subst.
    + eapply Forall_impl; [exact Hr|]. intros r.
      apply references_ok_mono; simpl; [done|].
      intros x Hx. apply elem_of_app. by left.
  - intros c new _ Hnew [Hc [Hn Hr]]. split; [done|]. split; [done|].
    apply Forall_app. split.
    + eapply Forall_impl; [exact Hr|]. intros r.
      by apply references_ok_mono.
    + eapply Forall_impl; [exact Hnew|]. intros r.
      by apply references_ok_mono.
  - intros c [Hc Hp]. done.
Qed.

#[local] Instance keeps_ok_cataloguing : Cataloguing keeps_ok.
Proof. by intros c ts ix hs H. Qed.

#[local] Instance keeps_ok_committing : Committing keeps_ok.
Proof. intros c [Hc Hp]. done. Qed.

(** ** Evaluating one cycle *)

Lemma foldl_insert_notin (rows : list (Z * string)) (m : gmap string Z) s :
  s ∉ rows.*2 →
  foldl (λ m '(aid, sym), <[sym := aid]> m) m rows !! s = m !! s.
Proof.
  revert m. induction rows as [|[aid sym] rows IH]; intros m Hs; simpl; [done|].
  apply not_elem_of_cons in Hs as [Hne Hs]. simpl in Hne.
  rewrite IH by done. by apply lookup_insert_ne.
Qed.

Lemma foldl_insert_in (rows : list (Z * string)) (m : gmap string Z) aid s :
  NoDup rows.*2 → (aid, s) ∈ rows →
  foldl (λ m '(aid, sym), <[sym := aid]> m) m rows !! s = Some aid.
Proof.
  revert m. induction rows as [|[aid' sym'] rows IH]; intros m Hnd Hin; simpl.
  - by apply elem_of_nil in Hin.
  - apply NoDup_cons in Hnd as [Hnotin Hnd].
    apply elem_of_cons in Hin as [[= -> ->]|Hin].
    + rewrite foldl_insert_notin by done. apply lookup_insert_eq.
    + by apply IH.
Qed.

Lemma sym_to_id_assets_in (xs : list asset_row) a :
  NoDup (a_symbol <$> xs) → a ∈ xs →
  sym_to_id ((λ a, (a_id a, a_symbol a)) <$> xs) !! a_symbol a = Some (a_id a).
Proof.
  intros Hnd Hin. apply foldl_insert_in.
  - by rewrite <- list_fmap_compose.
  - apply list_elem_of_fmap. eauto.
Qed.

Lemma sym_to_id_assets_notin (xs : list asset_row) s :
  s ∉ a_symbol <$> xs →
  sym_to_id ((λ a, (a_id a, a_symbol a)) <$> xs) !! s = None.
Proof.
  intros Hs. unfold sym_to_id. rewrite foldl_insert_notin.
  - apply lookup_empty.
  - by rewrite <- list_fmap_compose.
Qed.

Lemma fetch_prices_state n c :
  (fetch_prices n c).2 = log_event (EvHttpGet "bitcoin,ethereum") c.
Proof.
  unfold fetch_prices. munfold.
  destruct n as [| |status body]; try done.
  destruct (raise_for_status status); [|done]. by destruct body.
Qed.

Lemma get_asset_id_map_ok c :
  "assets" ∈ tables (pending c) →
  get_asset_id_map false c =
    (Ok (sym_to_id ((λ a, (a_id a, a_symbol a)) <$> assets (pending c))),
     log_event EvSelectAssets c).
Proof.
  intros Ht. unfold get_asset_id_map, require_table. munfold.
  by rewrite bool_decide_eq_true_2.
Qed.

Lemma insert_tx_rows_ok d rows acc c :
  Forall (λ r, t_id r ≤ transactions_id_seq c) (transactions d ++ acc) →
  Forall (λ v : tx_values, v.1.1.1.1 ∈ u_id <$> users d ∧
                           v.1.1.1.2 ∈ a_id <$> assets d) rows →
  insert_tx_rows d rows acc c =
    (Ok (acc ++ with_ids (transactions_id_seq c) rows),
     set_transactions_id_seq (transactions_id_seq c + Z.of_nat (length rows)) c).
Proof.
  revert acc c.
  induction rows as [|[[[[uid aid] amount] price] ts] rows IH];
    intros acc c Hseq Hfk; simpl.
  - munfold. rewrite app_nil_r, Z.add_0_r. by destruct c.
  - apply Forall_cons in Hfk as [[Hu Ha] Hfk]. simpl in Hu, Ha. munfold.
    rewrite bool_decide_eq_false_2.
    2:{ intros Hin. apply list_elem_of_fmap in Hin as (r & [= Hid _] & Hr).
        rewrite Forall_forall in Hseq. specialize (Hseq r Hr). simpl in Hseq. lia. }
    rewrite (bool_decide_eq_true_2 _ Hu), (bool_decide_eq_true_2 _ Ha). simpl.
    rewrite IH; simpl.
    + rewrite <- app_assoc. simpl. unfold set_transactions_id_seq. simpl.
      f_equal. f_equal. lia.
    + rewrite app_assoc. apply Forall_app. split.
      * eapply Forall_impl; [exact Hseq|]. simpl. intros r Hr. lia.
      * apply Forall_singleton. simpl. lia.
    + done.
Qed.

Lemma build_rows_btc_eth (m : gmap string Z) btc eth ts :
  m !! "BTC" = Some btc → m !! "ETH" = Some eth →
  build_rows response_btc_eth m ts [] =
    Ok [ (1, btc, 1, (67000 # 1)%Q, ts); (1, eth, 1, (3500 # 1)%Q, ts) ].
Proof.
  intros Hb He. unfold response_btc_eth. simpl.
  unfold mbind, result_bind. simpl. rewrite Hb. simpl. rewrite He. done.
Qed.

Lemma insert_transactions_ok rows c :
  "transactions" ∈ tables (pending c) →
  Forall (λ r, t_id r ≤ transactions_id_seq c) (transactions (pending c)) →
  Forall (λ v : tx_values, v.1.1.1.1 ∈ u_id <$> users (pending c) ∧
                           v.1.1.1.2 ∈ a_id <$> assets (pending c)) rows →
  insert_transactions false rows c =
    (Ok tt,
     set_pending
       (set_transactions
          (transactions (pending c) ++ with_ids (transactions_id_seq c) rows)
          (pending c))
       (set_transactions_id_seq
          (transactions_id_seq c + Z.of_nat (length rows))
          (log_event (EvInsertTransactions rows) c))).
Proof.
  intros Ht Hseq Hfk. unfold insert_transactions, require_table.
  unfold mbind, M_bind, mret, M_ret, emit, modify, get_pending, put_pending.
  simpl. rewrite (bool_decide_eq_true_2 _ Ht). simpl.
  rewrite insert_tx_rows_ok; simpl; try done.
  by rewrite app_nil_r.
Qed.

(** C1.  On a seeded store that holds the assets BTC and ETH, a cycle whose
    fetch returns [{"bitcoin": {"usd": 67000.0}, "ethereum": {"usd":
    3500.0}}] and in which the store does not fail returns normally and
    commits exactly two new observation rows, after the rows that were
    there: both with user 1 and amount 1, with the ids of BTC and ETH and the
    prices 67000 and 3500 of the response, and both with the one reading
    [now w] of the clock that [ingest_once] takes in the cycle.  The trace
    shows one [INSERT] with the two rows, followed by one commit. *)
Theorem ingest_once_appends_two_rows (w : cycle_input) (c : conn)
    (btc eth : Z) (btc_name eth_name : string) :
  seeded c →
  mkAsset btc "BTC" btc_name ∈ assets (committed c) →
  mkAsset eth "ETH" eth_name ∈ assets (committed c) →
  (fetch_prices (net w) c).1 = Ok response_btc_eth →
  fail_select w = false → fail_insert w = false → fail_commit w = false →
  ∃ c',
    ingest_once w c = (Ok tt, c') ∧
    transactions (committed c') =
      transactions (committed c) ++
        [ mkTx (transactions_id_seq c + 1) 1 btc 1 (67000 # 1) (now w);
          mkTx (transactions_id_seq c + 2) 1 eth 1 (3500 # 1) (now w) ] ∧
    users (committed c') = users (committed c) ∧
    assets (committed c') = assets (committed c) ∧
    trace c' =
      trace c ++
        [ EvHttpGet "bitcoin,ethereum";
          EvSelectAssets;
          EvInsertTransactions
            [ (1, btc, 1, (67000 # 1)%Q, now w);
              (1, eth, 1, (3500 # 1)%Q, now w) ];
          EvCommit;
          EvPrint (LogInserted (now w) 2) ].
Proof.
  intros (Hq & Hta & Htt & Hnd & Hactor & Hseq) Hbtc Heth Hfetch Hfs Hfi Hfc.
  unfold quiescent in Hq.
  unfold ingest_once. unfold mbind at 1, M_bind at 1.
  pose proof (fetch_prices_state (net w) c) as Hst.
  destruct (fetch_prices (net w) c) as [r c1]. simpl in Hfetch, Hst. subst r c1.
  rewrite Hfs. unfold mbind at 1, M_bind at 1.
  rewrite get_asset_id_map_ok by (simpl; by rewrite Hq).
  unfold mbind at 1, M_bind at 1. unfold lift.
  simpl pending. rewrite Hq.
  rewrite (build_rows_btc_eth _ btc eth).
  2:{ apply (sym_to_id_assets_in _ (mkAsset btc "BTC" btc_name)); done. }
  2:{ apply (sym_to_id_assets_in _ (mkAsset eth "ETH" eth_name)); done. }
  rewrite Hfi, Hfc. unfold execute_values, paginate. simpl paginate_fuel.
  simpl for_each. unfold mbind, M_bind.
  rewrite insert_transactions_ok; simpl; rewrite ?Hq; try done.
  2:{ repeat constructor; simpl; try done.
      - change btc with (a_id (mkAsset btc "BTC" btc_name)).
        by apply list_elem_of_fmap_2.
      - change eth with (a_id (mkAsset eth "ETH" eth_name)).
        by apply list_elem_of_fmap_2. }
  eexists. split; [reflexivity|]. simpl.
  repeat split; try done.
  - do 4 f_equal. lia.
  - by rewrite <- !app_assoc.
Qed.

Lemma ingest_once_appends_two_rows_witness :
  seeded seeded_store ∧
  ∃ c', ingest_once example_cycle seeded_store = (Ok tt, c') ∧
        transactions (committed c') =
          [ mkTx 1 1 1 1 (67000 # 1) 1762190000000000;
            mkTx 2 1 2 1 (3500 # 1) 1762190000000000 ].
Proof.
  assert (seeded seeded_store) as Hseeded.
  { repeat split; try reflexivity; decide_closed. }
  split; [exact Hseeded|].
  assert (mkAsset 1 "BTC" "Bitcoin" ∈ assets (committed seeded_store))
    as Hbtc by decide_closed.
  assert (mkAsset 2 "ETH" "Ethereum" ∈ assets (committed seeded_store))
    as Heth by decide_closed.
  destruct (ingest_once_appends_two_rows example_cycle seeded_store 1 2
              "Bitcoin" "Ethereum" Hseeded Hbtc Heth
              eq_refl eq_refl eq_refl eq_refl)
    as (c' & Hrun & Htx & _).
  exists c'. split; [exact Hrun | exact Htx].
Defined.

(** ** The loop after a cycle *)

Lemma time_sleep_eval s i c :
  time_sleep s i c =
    (if i then Raise KeyboardInterrupt else Ok tt, log_event (EvSleep s) c).
Proof. unfold time_sleep. munfold. by destruct i. Qed.

Lemma while_true_cons w ws c c2 :
  loop_body w c = (Ok tt, c2) → while_true (w :: ws) c = while_true ws c2.
Proof. intros H. simpl. unfold mbind, M_bind. by rewrite H. Qed.

Lemma raises_only_bind {A B} P (m : M A) (k : A → M B) :
  raises_only P m → (∀ a, raises_only P (k a)) → raises_only P (m ≫= k).
Proof.
  intros Hm Hk c e. unfold mbind, M_bind.
  specialize (Hm c). destruct (m c) as [[a|e'] c1]; simpl in *.
  - apply Hk.
  - intros [= ->]. by apply Hm.
Qed.

Lemma raises_only_for_each {A} P (body : A → M unit) xs :
  (∀ x, raises_only P (body x)) → raises_only P (for_each body xs).
Proof.
  intros Hb. induction xs as [|x xs IH]; simpl; [by intros c e|].
  apply raises_only_bind; auto.
Qed.

Lemma dict_get_raise {V} (d : list (string * V)) k e :
  dict_get d k = Raise e → e = KeyError k.
Proof.
  induction d as [|[k' v] d IH]; simpl; [by intros [= <-]|].
  by case_bool_decide.
Qed.

Lemma build_rows_raise items m ts rows e :
  build_rows items m ts rows = Raise e → ∃ key, e = KeyError key.
Proof.
  revert rows. induction items as [|[cg_id payload] items IH]; intros rows;
    cbn [build_rows]; [done|].
  unfold mbind, result_bind.
  destruct (dict_get ASSETS cg_id) as [entry|e1] eqn:H1.
  2:{ intros [= <-]. apply dict_get_raise in H1. eauto. }
  destruct (m !! entry.1); [|intros [= <-]; eauto].
  destruct (dict_get payload "usd") as [price|e3] eqn:H3.
  2:{ intros [= <-]. apply dict_get_raise in H3. eauto. }
  apply IH.
Qed.

Lemma insert_tx_rows_raise d rows acc c e :
  (insert_tx_rows d rows acc c).1 = Raise e → ∃ de, e = DatabaseError de.
Proof.
  revert acc c. induction rows as [|[[[[uid aid] amount] price] ts] rows IH];
    intros acc c; simpl; [done|].
  munfold. repeat (case_bool_decide; simpl); try (intros [= <-]; eauto).
  apply IH.
Qed.

Lemma fetch_prices_raise_cases n c e :
  (fetch_prices n c).1 = Raise e →
  (n = NetTimeout ∧ e = Timeout) ∨
  (n = NetConnectionError ∧ e = ConnectionError) ∨
  (∃ status body, n = NetResponse status body ∧
                  400 ≤ status < 600 ∧ e = HTTPError status) ∨
  (∃ status, n = NetResponse status None ∧
             ¬ (400 ≤ status < 600) ∧ e = JSONDecodeError).
Proof.
  unfold fetch_prices, raise_for_status. munfold.
  destruct n as [| |status body].
  - intros [= <-]. by left.
  - intros [= <-]. right. by left.
  - destruct (400 <=? status) eqn:H1; destruct (status <? 600) eqn:H2; simpl;
      try (destruct body; [done|]; intros [= <-]; do 3 right;
           exists status; split; [done|]; split; [lia | done]).
    intros [= <-]. do 2 right. left. exists status, body.
    split; [done|]. split; [lia | done].
Qed.

Lemma after_fetch_raises w data :
  raises_only store_or_lookup_error
    (asset_id_by_symbol ← get_asset_id_map (fail_select w);
     rows ← lift (build_rows data asset_id_by_symbol (now w) []);
     execute_values (fail_insert w) rows ;;
     commit (fail_commit w) ;;
     print (LogInserted (now w) (length rows))).
Proof.
  apply raises_only_bind.
  { intros c e. unfold get_asset_id_map, require_table. munfold.
    destruct (fail_select w); simpl; [by intros [= <-]|].
    case_bool_decide; simpl; [done | by intros [= <-]]. }
  intros m. apply raises_only_bind.
  { intros c e. unfold lift. simpl. intros H.
    apply build_rows_raise in H as [key ->]. done. }
  intros rows. apply raises_only_bind.
  { apply raises_only_for_each. intros page c e.
    unfold insert_transactions, require_table. munfold.
    destruct (fail_insert w); simpl; [by intros [= <-]|].
    case_bool_decide; simpl; [|by intros [= <-]].
    match goal with
    | |- context [insert_tx_rows ?d ?rs ?acc ?c0] =>
        pose proof (insert_tx_rows_raise d rs acc c0) as Hr;
        destruct (insert_tx_rows d rs acc c0) as [[new|e'] c1]
    end; simpl in *; [done|].
    intros [= <-]. by destruct (Hr e' eq_refl) as [de ->]. }
  intros _. apply raises_only_bind.
  { intros c e. unfold commit. munfold.
    destruct (fail_commit w); simpl; [by intros [= <-] | done]. }
  intros _ c e. done.
Qed.

(** A cycle raises what the fetch raised, or else an error of the store or
    of a lookup after the fetch returned. *)
Lemma ingest_once_raise_cases w c e :
  (ingest_once w c).1 = Raise e →
  (fetch_prices (net w) c).1 = Raise e ∨
  ((∃ data, (fetch_prices (net w) c).1 = Ok data) ∧ store_or_lookup_error e).
Proof.
  unfold ingest_once. unfold mbind at 1, M_bind at 1.
  destruct (fetch_prices (net w) c) as [[data|e1] c1]; simpl.
  - intros H. right. split; [eauto|].
    by apply (after_fetch_raises w data c1).
  - intros [= <-]. by left.
Qed.

Lemma ingest_once_raises_exception w c e :
  (ingest_once w c).1 = Raise e → isinstance_Exception e = true.
Proof.
  intros H. apply ingest_once_raise_cases in H as [H|[_ H]].
  - apply fetch_prices_raise_cases in H
      as [[_ ->]|[[_ ->]|[(? & ? & _ & _ & ->)|(? & _ & _ & ->)]]]; done.
  - by destruct e.
Qed.

Lemma ingest_once_fetch_raise w c e :
  (fetch_prices (net w) c).1 = Raise e →
  ingest_once w c = (Raise e, log_event (EvHttpGet "bitcoin,ethereum") c).
Proof.
  intros H. unfold ingest_once. unfold mbind at 1, M_bind at 1.
  pose proof (fetch_prices_state (net w) c) as Hst.
  destruct (fetch_prices (net w) c) as [r c1]. simpl in *. by subst.
Qed.

(** A cycle that raises has committed nothing. *)
Lemma ingest_once_raise_same_committed w c e c1 :
  ingest_once w c = (Raise e, c1) → committed c1 = committed c.
Proof.
  unfold ingest_once. unfold mbind, M_bind.
  pose proof (respects_fetch_prices same_committed (net w) c) as H1.
  destruct (fetch_prices (net w) c) as [[data|e1] c1']; simpl in H1;
    [|intros [= <- <-]; done].
  pose proof (respects_get_asset_id_map same_committed (fail_select w) c1')
    as H2.
  destruct (get_asset_id_map (fail_select w) c1') as [[m|e2] c2]; simpl in H2;
    [|intros [= <- <-]; congruence].
  unfold lift.
  destruct (build_rows data m (now w) []) as [rows|e3];
    [|intros [= <- <-]; congruence].
  pose proof (respects_execute_values same_committed (fail_insert w) rows c2)
    as H3.
  destruct (execute_values (fail_insert w) rows c2) as [[[]|e4] c3];
    simpl in H3; [|intros [= <- <-]; congruence].
  destruct (fail_commit w); unfold commit; munfold.
  - intros [= <- <-]. simpl. congruence.
  - done.
Qed.

(** ** The loop after a cycle *)

(** Without Ctrl+C before the sleep, the loop runs [ingest_once] as it
    is. *)
Lemma ingest_once_sigint_calm w c :
  sigint w = None → ingest_once_sigint w c = ingest_once w c.
Proof.
  intros H. unfold ingest_once_sigint, ingest_once, checkpoint. rewrite H.
  repeat (case_bool_decide; try congruence). reflexivity.
Qed.

(** Where Ctrl+C arrives in a cycle, the cycle either runs as if it had not
    arrived (it failed before that stage), or is ended by
    [KeyboardInterrupt]: before its commit, or, at the last stage, after a
    commit that went through. *)
Lemma ingest_once_sigint_cases w c :
  ingest_once_sigint w c = ingest_once w c ∨
  ((ingest_once_sigint w c).1 = Raise KeyboardInterrupt ∧
   (committed (ingest_once_sigint w c).2 = committed c ∨
    (sigint w = Some AtPrint ∧
     ∃ c1, ingest_once w c = (Ok tt, c1) ∧
           committed (ingest_once_sigint w c).2 = committed c1))).
Proof.
  destruct (sigint w) as [s|] eqn:Hsig;
    [|left; by apply ingest_once_sigint_calm].
  unfold ingest_once_sigint, ingest_once, checkpoint. rewrite Hsig.
  destruct s; repeat (case_bool_decide; try congruence);
    unfold mbind, M_bind, pass, mret, M_ret, raise.
  all: try (right; split; [reflexivity|]; left; reflexivity).
  all: repeat
    (match goal with
     | |- context [fetch_prices ?n ?c0] =>
         let H := fresh "Hst" in
         pose proof (fetch_prices_state n c0) as H;
         destruct (fetch_prices n c0) as [[?data|?e] ?st]; simpl in H; subst
     | |- context [get_asset_id_map ?f ?c0] =>
         let H := fresh "Hsel" in
         pose proof (respects_get_asset_id_map same_committed f c0) as H;
         destruct (get_asset_id_map f c0) as [[?m|?e] ?st]; simpl in H
     | |- context [build_rows ?d ?m0 ?t ?r] =>
         unfold lift; destruct (build_rows d m0 t r) as [?rows|?e]
     | |- context [execute_values ?f ?rows0 ?c0] =>
         let H := fresh "Hins" in
         pose proof (respects_execute_values same_committed f rows0 c0) as H;
         destruct (execute_values f rows0 c0) as [[[]|?e] ?st]; simpl in H
     end; simpl; auto).
  all: unfold same_committed in *; simpl in *.
  all: try (right; split; [reflexivity|]; left; congruence).
  all: unfold commit; munfold; destruct (fail_commit w); simpl; auto.
  all: try (right; split; [reflexivity|]; left; congruence).
  right. split; [done|]. right. split; [done|]. eexists.
  split; reflexivity.
Qed.

Lemma handler_eval w e c :
  isinstance_Exception e = true →
  handler w e c =
    if bool_decide (sigint w = Some AtHandler) then (Raise KeyboardInterrupt, c)
    else if isinstance_HTTPError e
    then (Ok tt, log_event (EvPrint (LogHttpError e)) c)
    else (if fail_rollback w then Raise (DatabaseError InterfaceError)
          else Ok tt, rolled_back e c).
Proof.
  intros Hexc. unfold handler, checkpoint, rolled_back. rewrite Hexc.
  case_bool_decide; destruct (isinstance_HTTPError e); try reflexivity.
  unfold rollback. munfold. by destruct (fail_rollback w).
Qed.

Lemma loop_body_ok_sigint w c c1 :
  ingest_once_sigint w c = (Ok tt, c1) →
  loop_body w c = (pass_result w, log_event (EvSleep POLL_SECONDS) c1).
Proof.
  intros Hrun. unfold loop_body, try_except. unfold mbind, M_bind.
  rewrite Hrun. apply time_sleep_eval.
Qed.

(** What a pass makes of a cycle that raised [e], when Ctrl+C does not
    arrive before the sleep: the first handler goes on to the sleep, and so
    does the second unless its rollback raises. *)
Lemma loop_body_raise w c e c1 :
  sigint w = None →
  ingest_once w c = (Raise e, c1) →
  isinstance_Exception e = true →
  loop_body w c =
    if isinstance_HTTPError e
    then (pass_result w,
          log_event (EvSleep POLL_SECONDS)
            (log_event (EvPrint (LogHttpError e)) c1))
    else if fail_rollback w
    then (Raise (DatabaseError InterfaceError), rolled_back e c1)
    else (pass_result w, log_event (EvSleep POLL_SECONDS) (rolled_back e c1)).
Proof.
  intros Hsig Hrun Hexc. unfold loop_body, try_except.
  unfold mbind at 1, M_bind at 1.
  rewrite ingest_once_sigint_calm, Hrun by done.
  rewrite handler_eval by done. rewrite Hsig.
  rewrite bool_decide_eq_false_2 by done.
  destruct (isinstance_HTTPError e); [apply time_sleep_eval|].
  destruct (fail_rollback w); [reflexivity | apply time_sleep_eval].
Qed.

(** A pass commits what its cycle committed, and nothing else. *)
Lemma loop_body_committed w c :
  committed (loop_body w c).2 = committed (ingest_once_sigint w c).2.
Proof.
  unfold loop_body, try_except. unfold mbind, M_bind.
  destruct (ingest_once_sigint w c) as [[[]|e] c1]; simpl.
  - by rewrite time_sleep_eval.
  - pose proof (respects_handler same_committed w e c1) as Hh.
    destruct (handler w e c1) as [[[]|e'] c2]; simpl in *; [|done].
    by rewrite time_sleep_eval.
Qed.

(** A cycle that raises without Ctrl+C commits nothing with it either:
    Ctrl+C can only end it earlier. *)
Lemma loop_body_raise_same_committed w c e c1 :
  ingest_once w c = (Raise e, c1) →
  committed (loop_body w c).2 = committed c.
Proof.
  intros Hrun. rewrite loop_body_committed.
  destruct (ingest_once_sigint_cases w c) as [->|[_ [H|(_ & c2 & H & _)]]].
  - rewrite Hrun. by apply ingest_once_raise_same_committed in Hrun.
  - done.
  - congruence.
Qed.

(** The handlers of [main] in terms of the trace and the store, for a pass
    that gets to its sleep. *)
Lemma loop_body_raise_spec w c e c1 :
  sigint w = None →
  ingest_once w c = (Raise e, c1) →
  isinstance_HTTPError e = true ∨ fail_rollback w = false →
  ∃ c2,
    loop_body w c = (pass_result w, c2) ∧
    committed c2 = committed c ∧
    pending c2 = (if isinstance_HTTPError e then pending c1 else committed c) ∧
    trace c2 = trace c1 ++ handler_events e ++ [EvSleep POLL_SECONDS] ∧
    (users_id_seq c2, assets_id_seq c2, transactions_id_seq c2) =
      (users_id_seq c1, assets_id_seq c1, transactions_id_seq c1) ∧
    (interrupt w = false → ∀ ws, while_true (w :: ws) c = while_true ws c2).
Proof.
  intros Hsig Hrun Hgo.
  pose proof (ingest_once_raise_same_committed _ _ _ _ Hrun) as Hsame.
  assert (isinstance_Exception e = true) as Hexc.
  { apply (ingest_once_raises_exception w c). by rewrite Hrun. }
  pose proof (loop_body_raise _ _ _ _ Hsig Hrun Hexc) as Hbody.
  assert (isinstance_HTTPError e = false → fail_rollback w = false) as Hrb.
  { intros Hne. destruct Hgo; congruence. }
  unfold handler_events.
  destruct (isinstance_HTTPError e); [|rewrite Hrb in Hbody by done];
    (eexists; split; [exact Hbody|]); simpl; rewrite ?Hsame;
    (split; [done|]); (split; [done|]);
    (split; [by rewrite <- ?app_assoc|]); (split; [reflexivity|]);
    intros Hint ws; unfold mbind, M_bind; rewrite Hbody;
    unfold pass_result; rewrite Hint; reflexivity.
Qed.

(** A rollback that raises ends the pass before its sleep, and the loop with
    it: the passes that would have followed are not run. *)
Lemma loop_body_rollback_raises w c e c1 :
  sigint w = None →
  ingest_once w c = (Raise e, c1) →
  isinstance_HTTPError e = false →
  fail_rollback w = true →
  ∃ c2,
    loop_body w c = (Raise (DatabaseError InterfaceError), c2) ∧
    committed c2 = committed c ∧
    pending c2 = committed c ∧
    trace c2 = trace c1 ++ [EvPrint (LogIngestError e); EvRollback] ∧
    (users_id_seq c2, assets_id_seq c2, transactions_id_seq c2) =
      (users_id_seq c1, assets_id_seq c1, transactions_id_seq c1) ∧
    ∀ ws, while_true (w :: ws) c = (Raise (DatabaseError InterfaceError), c2).
Proof.
  intros Hsig Hrun Hhttp Hrb.
  pose proof (ingest_once_raise_same_committed _ _ _ _ Hrun) as Hsame.
  assert (isinstance_Exception e = true) as Hexc.
  { apply (ingest_once_raises_exception w c). by rewrite Hrun. }
  pose proof (loop_body_raise _ _ _ _ Hsig Hrun Hexc) as Hbody.
  rewrite Hhttp, Hrb in Hbody.
  eexists. split; [exact Hbody|]. simpl. rewrite Hsame.
  split; [done|]. split; [done|].
  split; [by rewrite <- app_assoc|]. split; [done|].
  intros ws. unfold mbind, M_bind. by rewrite Hbody.
Qed.

Lemma bind_ok_inv {A B} (m : M A) (k : A → M B) c b c2 :
  (m ≫= k) c = (Ok b, c2) → ∃ a c1, m c = (Ok a, c1) ∧ k a c1 = (Ok b, c2).
Proof.
  unfold mbind, M_bind. destruct (m c) as [[a|e] c1]; [eauto | done].
Qed.

Lemma while_true_app ws1 ws2 c :
  (while_true ws1 c).1 = Ok tt →
  while_true (ws1 ++ ws2) c = while_true ws2 (while_true ws1 c).2.
Proof.
  revert c. induction ws1 as [|w ws1 IH]; intros c; simpl; [done|].
  unfold mbind, M_bind. destruct (loop_body w c) as [[[]|e] c1]; [|done].
  apply IH.
Qed.

Lemma main_startup_ok ws c c0 :
  startup c = (Ok tt, c0) →
  main true ws c =
    match while_true ws (log_event (EvPrint LogStarting) c0) with
    | (Ok _, c1) => (Polling, c1)
    | (Raise KeyboardInterrupt, c1) =>
        (Exited, ((print LogStopping ;; close) c1).2)
    | (Raise e, c1) => (Crashed e, (close c1).2)
    end.
Proof.
  unfold startup, main. intros H.
  apply bind_ok_inv in H as ([] & s1 & H1 & H2).
  unfold mbind at 1, M_bind at 1. rewrite H1.
  unfold mbind at 1, M_bind at 1. rewrite H2.
  unfold mbind at 1, M_bind at 1. unfold print, emit, modify. done.
Qed.


(** ** Failing cycles *)

(** C3 fails on the code when the rollback of the handler raises.  When a
    cycle raises a database error (the fetch has then returned: the error
    comes from the [SELECT], the [INSERT] or the commit) and Ctrl+C stays
    away, the second handler of [main] logs the error and calls
    [conn.rollback()].  Nothing of the cycle is committed in any case.  When
    the rollback returns, nothing is pending and the loop goes on to the
    sleep and to the next pass.  When the rollback raises, as it does on a
    connection that is lost, its exception leaves the loop: no sleep, none
    of the passes that would have followed, and [main] ends with that
    exception after closing the connection. *)
Theorem persistence_failure_rolled_back (w : cycle_input) (c c1 : conn)
    (de : db_error) :
  sigint w = None →
  ingest_once w c = (Raise (DatabaseError de), c1) →
  (∃ data, (fetch_prices (net w) c).1 = Ok data) ∧
  committed (loop_body w c).2 = committed c ∧
  (fail_rollback w = false →
   ∃ c2,
     loop_body w c = (pass_result w, c2) ∧
     committed c2 = committed c ∧
     pending c2 = committed c ∧
     trace c2 = trace c1 ++ [ EvPrint (LogIngestError (DatabaseError de));
                              EvRollback;
                              EvSleep POLL_SECONDS ] ∧
     (interrupt w = false → ∀ ws, while_true (w :: ws) c = while_true ws c2)) ∧
  (fail_rollback w = true →
   ∃ c2,
     (∀ ws, while_true (w :: ws) c =
              (Raise (DatabaseError InterfaceError), c2)) ∧
     committed c2 = committed c ∧
     trace c2 = trace c1 ++ [ EvPrint (LogIngestError (DatabaseError de));
                              EvRollback ] ∧
     ∀ ws1 ws2 c' c0,
       startup c' = (Ok tt, c0) →
       while_true ws1 (log_event (EvPrint LogStarting) c0) = (Ok tt, c) →
       main true (ws1 ++ w :: ws2) c' =
         (Crashed (DatabaseError InterfaceError), (close c2).2)).
Proof.
  intros Hsig Hrun. split; [|split; [|split]].
  - destruct (ingest_once_raise_cases w c (DatabaseError de)) as [H|[H _]];
      [by rewrite Hrun| |done].
    apply fetch_prices_raise_cases in H
      as [[_ ?]|[[_ ?]|[(? & ? & _ & _ & ?)|(? & _ & _ & ?)]]]; done.
  - by apply (loop_body_raise_same_committed _ _ _ _ Hrun).
  - intros Hrb.
    destruct (loop_body_raise_spec _ _ _ _ Hsig Hrun (or_intror Hrb))
      as (c2 & Hbody & Hc & Hp & Ht & _ & Hnext).
    exists c2. simpl in Hp, Ht. done.
  - intros Hrb.
    destruct (loop_body_rollback_raises _ _ _ _ Hsig Hrun eq_refl Hrb)
      as (c2 & Hbody & Hc & Hp & Ht & _ & Hloop).
    exists c2. split; [exact Hloop|]. split; [exact Hc|]. split; [exact Ht|].
    intros ws1 ws2 c' c0 Hstart Hws1.
    rewrite (main_startup_ok _ _ _ Hstart).
    rewrite while_true_app by by rewrite Hws1.
    rewrite Hws1. simpl fst. simpl snd. by rewrite Hloop.
Qed.

Lemma persistence_failure_rolled_back_witness :
  (∃ c2,
     loop_body insert_failure_cycle running_store = (Ok tt, c2) ∧
     committed c2 = committed running_store ∧
     pending c2 = committed running_store) ∧
  (∃ c2,
     while_true [lost_connection_cycle; example_cycle] running_store =
       (Raise (DatabaseError InterfaceError), c2) ∧
     committed c2 = committed running_store ∧
     main true [example_cycle; lost_connection_cycle; example_cycle] fresh =
       (Crashed (DatabaseError InterfaceError), (close c2).2)).
Proof.
  split.
  - destruct (persistence_failure_rolled_back insert_failure_cycle running_store
                (ingest_once insert_failure_cycle running_store).2
                OperationalError eq_refl eq_refl)
      as (_ & _ & Hgood & _).
    destruct (Hgood eq_refl) as (c2 & Hbody & Hc & Hp & _).
    exists c2. split; [exact Hbody|]. split; [exact Hc | exact Hp].
  - assert (startup fresh = (Ok tt, (startup fresh).2)) as Hstart
      by (vm_compute; reflexivity).
    assert (while_true [example_cycle]
              (log_event (EvPrint LogStarting) (startup fresh).2) =
            (Ok tt, running_store))
      as Hws1 by (vm_compute; reflexivity).
    assert (ingest_once lost_connection_cycle running_store =
            (Raise (DatabaseError OperationalError),
             (ingest_once lost_connection_cycle running_store).2)) as Hrun
      by (vm_compute; reflexivity).
    destruct (persistence_failure_rolled_back lost_connection_cycle
                running_store _ OperationalError eq_refl Hrun)
      as (_ & _ & _ & Hbad).
    destruct (Hbad eq_refl) as (c2 & Hloop & Hc & _ & Hmain).
    exists c2. split; [exact (Hloop [example_cycle])|]. split; [exact Hc|].
    exact (Hmain [example_cycle] [example_cycle] fresh _ Hstart Hws1).
Defined.

(** C4, as the specification has it, fails for a status that is neither a
    success nor an error for [raise_for_status]: the response is taken as
    it is, and the cycle commits its rows. *)
Lemma non_2xx_status_adds_rows :
  net redirect_cycle = NetResponse 302 (Some response_btc_eth) ∧
  ¬ (200 ≤ 302 < 300) ∧
  transactions (committed (loop_body redirect_cycle running_store).2) =
    transactions (committed running_store) ++
      [ mkTx 3 1 1 1 (67000 # 1) 1762190030000000;
        mkTx 4 1 2 1 (3500 # 1) 1762190030000000 ].
Proof.
  split; [reflexivity|]. split; [lia|]. vm_compute. reflexivity.
Qed.

Lemma fetch_prices_fails n c :
  timeout_or_error_status n →
  (fetch_prices n c).1 =
    Raise match n with
          | NetResponse status _ => HTTPError status
          | _ => Timeout
          end.
Proof.
  intros [->|(status & body & -> & Hs)]; [reflexivity|].
  unfold fetch_prices, raise_for_status. munfold.
  destruct (400 <=? status) eqn:H1; [|lia].
  destruct (status <? 600) eqn:H2; [done | lia].
Qed.

(** C4, amended.  When the request of a cycle times out, or is answered
    with a 4xx or 5xx status, the fetch raises ([Timeout], or the
    [HTTPError] of the status) and the pass commits nothing, whatever else
    happens in it.  When Ctrl+C stays away, and for a timeout when the
    rollback of the second handler returns, the pass leaves the store as it
    was (what is pending is kept by the first handler and discarded by the
    second), no sequence moves, no statement is sent, and the loop goes on
    to the sleep and to the next pass. *)
Theorem fetch_failure_adds_no_rows (w : cycle_input) (c : conn) :
  timeout_or_error_status (net w) →
  ∃ e,
    (fetch_prices (net w) c).1 = Raise e ∧
    e = match net w with
        | NetResponse status _ => HTTPError status
        | _ => Timeout
        end ∧
    committed (loop_body w c).2 = committed c ∧
    (sigint w = None →
     isinstance_HTTPError e = true ∨ fail_rollback w = false →
     ∃ c2,
       loop_body w c = (pass_result w, c2) ∧
       committed c2 = committed c ∧
       pending c2 = (if isinstance_HTTPError e then pending c else committed c) ∧
       (users_id_seq c2, assets_id_seq c2, transactions_id_seq c2) =
         (users_id_seq c, assets_id_seq c, transactions_id_seq c) ∧
       trace c2 = trace c ++ [EvHttpGet "bitcoin,ethereum"] ++
                    handler_events e ++ [EvSleep POLL_SECONDS] ∧
       (interrupt w = false → ∀ ws, while_true (w :: ws) c = while_true ws c2)).
Proof.
  intros Hnet. pose proof (fetch_prices_fails _ c Hnet) as Hfetch.
  eexists. split; [exact Hfetch|]. split; [reflexivity|].
  apply ingest_once_fetch_raise in Hfetch. split.
  - by apply (loop_body_raise_same_committed _ _ _ _ Hfetch).
  - intros Hsig Hgo.
    destruct (loop_body_raise_spec _ _ _ _ Hsig Hfetch Hgo)
      as (c2 & Hbody & Hc & Hp & Ht & Hs & Hnext).
    exists c2. simpl in *. rewrite <- app_assoc in Ht. done.
Qed.

Lemma fetch_failure_adds_no_rows_witness :
  (∃ c2, loop_body timeout_cycle running_store = (Ok tt, c2) ∧
         store_of c2 = store_of running_store) ∧
  (∃ c2, loop_body http_error_cycle running_store = (Ok tt, c2) ∧
         store_of c2 = store_of running_store).
Proof.
  split.
  - destruct (fetch_failure_adds_no_rows timeout_cycle running_store)
      as (e & _ & -> & _ & Hgo); [by left|].
    destruct (Hgo eq_refl (or_intror eq_refl))
      as (c2 & Hbody & Hc & Hp & Hs & _).
    exists c2. split; [exact Hbody|].
    unfold store_of. rewrite Hc, Hp, Hs. reflexivity.
  - destruct (fetch_failure_adds_no_rows http_error_cycle running_store)
      as (e & _ & -> & _ & Hgo).
    { right. exists 503, None. split; [reflexivity | lia]. }
    destruct (Hgo eq_refl (or_introl eq_refl))
      as (c2 & Hbody & Hc & Hp & Hs & _).
    exists c2. split; [exact Hbody|].
    unfold store_of. rewrite Hc, Hp, Hs. reflexivity.
Defined.

(** C5, as the specification has it, fails for a timeout: the exception that
    [requests] raises for it is not an [HTTPError], so the cycle is handled
    by the second handler, which rolls back. *)
Lemma timeout_not_network_branch :
  (fetch_prices (net timeout_cycle) seeded_store).1 = Raise Timeout ∧
  ¬ network_branch timeout_cycle seeded_store ∧
  EvRollback ∈ trace (loop_body timeout_cycle seeded_store).2.
Proof.
  split; [reflexivity|]. split.
  - intros [e H]. vm_compute in H. discriminate H.
  - decide_closed.
Qed.

(** C5, amended.  For a cycle that raises [e], Ctrl+C staying away: [e] is
    an [HTTPError] exactly when the response had a 4xx or 5xx status, and a
    timeout raises [Timeout], which is not one.  The first handler of [main]
    takes an [HTTPError] only: it logs the warning and does nothing else,
    and the loop goes on to the sleep and to the next pass.  Every other
    error, a timeout of the fetch included, takes the second handler, which
    logs and calls the rollback; when the rollback returns, the loop goes on
    to the sleep and to the next pass. *)
Theorem cycle_error_branches (w : cycle_input) (c c1 : conn) (e : exn) :
  sigint w = None →
  ingest_once w c = (Raise e, c1) →
  (isinstance_HTTPError e = true ↔
   ∃ status body, net w = NetResponse status body ∧ 400 ≤ status < 600) ∧
  (net w = NetTimeout → e = Timeout) ∧
  (isinstance_HTTPError e = true →
   ∃ c2,
     loop_body w c = (pass_result w, c2) ∧
     trace c2 = trace c1 ++ [EvPrint (LogHttpError e); EvSleep POLL_SECONDS] ∧
     pending c2 = pending c1 ∧
     (interrupt w = false → ∀ ws, while_true (w :: ws) c = while_true ws c2)) ∧
  (isinstance_HTTPError e = false →
   (∃ tr, trace (loop_body w c).2 =
            trace c1 ++ [EvPrint (LogIngestError e); EvRollback] ++ tr) ∧
   (fail_rollback w = false →
    ∃ c2,
      loop_body w c = (pass_result w, c2) ∧
      trace c2 = trace c1 ++ [ EvPrint (LogIngestError e); EvRollback;
                               EvSleep POLL_SECONDS ] ∧
      pending c2 = committed c2 ∧
      (interrupt w = false → ∀ ws, while_true (w :: ws) c = while_true ws c2))).
Proof.
  intros Hsig Hrun.
  assert ((ingest_once w c).1 = Raise e) as Hrun1 by by rewrite Hrun.
  split; [split|split; [|split]].
  - intros Hhttp. apply ingest_once_raise_cases in Hrun1 as [H|[_ H]].
    + apply fetch_prices_raise_cases in H
        as [[_ ->]|[[_ ->]|[(s & b & Hn & Hs & _)|(? & _ & _ & ->)]]];
        try done. eauto.
    + by destruct e.
  - intros (status & body & Hn & Hs).
    assert ((fetch_prices (net w) c).1 = Raise (HTTPError status)) as Hf.
    { rewrite Hn. unfold fetch_prices, raise_for_status. munfold.
      destruct (400 <=? status) eqn:H1; [|lia].
      destruct (status <? 600) eqn:H2; [done | lia]. }
    apply ingest_once_fetch_raise in Hf. rewrite Hf in Hrun.
    by injection Hrun as <- _.
  - intros Hn.
    assert ((fetch_prices (net w) c).1 = Raise Timeout) as Hf
      by by rewrite Hn.
    apply ingest_once_fetch_raise in Hf. rewrite Hf in Hrun.
    by injection Hrun as <- _.
  - intros Hhttp.
    destruct (loop_body_raise_spec _ _ _ _ Hsig Hrun (or_introl Hhttp))
      as (c2 & Hbody & Hc & Hp & Ht & _ & Hnext).
    exists c2. unfold handler_events in Ht. rewrite Hhttp in Ht, Hp. done.
  - intros Hhttp. split.
    + destruct (fail_rollback w) eqn:Hrb.
      * destruct (loop_body_rollback_raises _ _ _ _ Hsig Hrun Hhttp Hrb)
          as (c2 & Hbody & _ & _ & Ht & _).
        exists []. rewrite Hbody. simpl. by rewrite Ht.
      * destruct (loop_body_raise_spec _ _ _ _ Hsig Hrun (or_intror Hrb))
          as (c2 & Hbody & _ & _ & Ht & _).
        exists [EvSleep POLL_SECONDS]. rewrite Hbody. simpl.
        unfold handler_events in Ht. rewrite Hhttp in Ht.
        rewrite Ht. by rewrite <- ?app_assoc.
    + intros Hrb.
      destruct (loop_body_raise_spec _ _ _ _ Hsig Hrun (or_intror Hrb))
        as (c2 & Hbody & Hc & Hp & Ht & _ & Hnext).
      exists c2. unfold handler_events in Ht. rewrite Hhttp in Ht, Hp.
      split; [done|]. split; [done|]. split; [congruence | done].
Qed.

Lemma cycle_error_branches_witness :
  (∃ c2, loop_body http_error_cycle seeded_store = (Ok tt, c2) ∧
         trace c2 = trace seeded_store ++
                      [ EvHttpGet "bitcoin,ethereum";
                        EvPrint (LogHttpError (HTTPError 503));
                        EvSleep 30 ]) ∧
  (∃ c2, loop_body timeout_cycle seeded_store = (Ok tt, c2) ∧
         trace c2 = trace seeded_store ++
                      [ EvHttpGet "bitcoin,ethereum";
                        EvPrint (LogIngestError Timeout);
                        EvRollback;
                        EvSleep 30 ]).
Proof.
  split.
  - destruct (cycle_error_branches http_error_cycle seeded_store
                (ingest_once http_error_cycle seeded_store).2
                (HTTPError 503) eq_refl eq_refl)
      as (_ & _ & Hfirst & _).
    destruct (Hfirst eq_refl) as (c2 & Hbody & Ht & _).
    exists c2. split; [exact Hbody | exact Ht].
  - destruct (cycle_error_branches timeout_cycle seeded_store
                (ingest_once timeout_cycle seeded_store).2
                Timeout eq_refl eq_refl)
      as (_ & _ & _ & Hsecond).
    destruct (Hsecond eq_refl) as (_ & Hgo).
    destruct (Hgo eq_refl) as (c2 & Hbody & Ht & _).
    exists c2. split; [exact Hbody | exact Ht].
Defined.

Lemma dict_get_notin {V} (d : list (string * V)) k :
  k ∉ d.*1 → dict_get d k = Raise (KeyError k).
Proof.
  induction d as [|[k' v] d IH]; simpl; [done|].
  intros Hk. apply not_elem_of_cons in Hk as [Hne Hk].
  rewrite bool_decide_eq_false_2 by done. auto.
Qed.

Lemma dict_get_in {V} (d : list (string * V)) k v :
  NoDup d.*1 → (k, v) ∈ d → dict_get d k = Ok v.
Proof.
  induction d as [|[k' v'] d IH]; simpl; intros Hnd Hin.
  - by apply elem_of_nil in Hin.
  - apply NoDup_cons in Hnd as [Hnotin Hnd].
    apply elem_of_cons in Hin as [[= -> ->]|Hin].
    + by rewrite bool_decide_eq_true_2.
    + rewrite bool_decide_eq_false_2; [auto|].
      intros ->. apply Hnotin. apply list_elem_of_fmap. by exists (k, v).
Qed.

Lemma ASSETS_keys_NoDup : NoDup ASSETS.*1.
Proof. decide_closed. Qed.




(** ** Append-only observations and integrity *)

Lemma run_ops_app os1 os2 c : run_ops (os1 ++ os2) c = run_ops os2 (run_ops os1 c).
Proof. unfold run_ops. apply foldl_app. Qed.

(** C6.  Take a connection whose open transaction has only added
    observation rows to the committed ones (as when nothing is pending), and
    any sequence of operations of the system: bootstrap, seeding, fetches,
    cycles with their handlers, whole runs of [main], rollbacks, closes.  The
    committed observations of any state on the way are a prefix of those of
    every later state: each committed row stays, unchanged, at its place, and
    rows are only added after it. *)
Theorem observations_append_only (c : conn) (os1 os2 : list op) :
  transactions (committed c) `prefix_of` transactions (pending c) →
  transactions (committed (run_ops os1 c))
    `prefix_of` transactions (committed (run_ops (os1 ++ os2) c)).
Proof.
  intros H. rewrite run_ops_app.
  pose proof (respects_ensure_schema tx_extends) as Hs.
  destruct (respects_run_ops tx_extends os1 c Hs H) as [H1 _].
  by destruct (respects_run_ops tx_extends os2 (run_ops os1 c) Hs H1).
Qed.

Lemma observations_append_only_witness :
  transactions (committed (run_ops [OpMain true [example_cycle]] fresh))
    `prefix_of`
  transactions
    (committed
       (run_ops ([OpMain true [example_cycle]] ++
                 [ OpLoopBody insert_failure_cycle;
                   OpMain true [example_cycle; timeout_cycle];
                   OpIngestOnce commit_failure_cycle;
                   OpRollback false;
                   OpLoopBody ctrl_c_cycle;
                   OpLoopBody lost_connection_cycle ])
                fresh)).
Proof.
  apply observations_append_only. by exists [].
Defined.

Lemma db_ok_empty : db_ok empty_db.
Proof. split; simpl; constructor. Qed.

(** C7.  In every state the system reaches from the empty database, in what
    is committed and in what is pending: no two rows of [assets] have the
    same symbol, and every row of [transactions] has the id of a row of
    [users] as its [user_id] and the id of a row of [assets] as its
    [asset_id]. *)
Theorem reachable_integrity (c : conn) :
  reachable c → db_ok (committed c) ∧ db_ok (pending c).
Proof.
  induction 1 as [|o c Hc IH].
  - split; apply db_ok_empty.
  - by apply (respects_run_op keeps_ok o c (respects_ensure_schema keeps_ok)).
Qed.

Lemma reachable_integrity_witness :
  reachable (run_op (OpMain true [example_cycle]) fresh) ∧
  db_ok (committed (run_op (OpMain true [example_cycle]) fresh)).
Proof.
  assert (reachable (run_op (OpMain true [example_cycle]) fresh)) as Hreach.
  { apply reachable_step. apply reachable_fresh. }
  split; [exact Hreach|].
  exact (proj1 (reachable_integrity _ Hreach)).
Defined.

(** ** Startup *)

(** C9.  When the environment has no [TIMESCALE_SERVICE_URL], or the
    connection to the store cannot be made, the script ends with an
    exception and leaves the connection state exactly as it found it: no
    statement, no commit, no pass of the loop. *)
Theorem startup_failure_is_fatal (env : gmap string string) (connect_ok : bool)
    (ws : list cycle_input) (c : conn) :
  env !! "TIMESCALE_SERVICE_URL" = None ∨ connect_ok = false →
  ∃ e, script env connect_ok ws c = (Crashed e, c).
Proof.
  intros [Henv| ->]; unfold script.
  - rewrite Henv. eauto.
  - destruct (env !! "TIMESCALE_SERVICE_URL") as [[|]|]; simpl; eauto.
Qed.

Lemma startup_failure_is_fatal_witness :
  (∃ e, script ∅ true [example_cycle] fresh = (Crashed e, fresh)) ∧
  (∃ e, script {[ "TIMESCALE_SERVICE_URL" := "postgres://tsdb" ]} false
               [example_cycle] fresh = (Crashed e, fresh)).
Proof.
  split.
  - apply startup_failure_is_fatal. left. reflexivity.
  - apply startup_failure_is_fatal. right. reflexivity.
Defined.

(** ** Bootstrap and seeding *)

Lemma catalog_grows_refl c : catalog_grows c c.
Proof.
  unfold catalog_grows. split_and!; try reflexivity; [auto|].
  intros x Hx. apply elem_of_app. by left.
Qed.

Lemma catalog_grows_trans c c1 c2 :
  catalog_grows c c1 → catalog_grows c1 c2 → catalog_grows c c2.
Proof.
  intros (T1 & I1 & H1 & N1 & U1 & R1) (T2 & I2 & H2 & N2 & U2 & R2).
  unfold catalog_grows. split_and!; try (by etrans); [auto|].
  intros x Hx. apply U2, elem_of_app in Hx as [Hx|Hx]; [by apply U1|].
  apply elem_of_app. by right.
Qed.

Lemma NoDup_snoc {A} (l : list A) x : x ∉ l → NoDup l → NoDup (l ++ [x]).
Proof.
  intros Hx Hl. apply NoDup_app. split; [done|].
  split; [|apply NoDup_singleton].
  intros y Hy Hy'. apply list_elem_of_singleton in Hy'. by subst.
Qed.

Lemma subseteq_snoc {A} (l : list A) x : l ⊆ l ++ [x].
Proof. intros y Hy. apply elem_of_app. by left. Qed.

Lemma create_table_post t refs c c1 :
  create_table_if_not_exists t refs c = (Ok tt, c1) →
  t ∈ tables (pending c1) ∧ catalog_grows c c1.
Proof.
  unfold create_table_if_not_exists. munfold.
  case_bool_decide as Ht; [intros [= <-]; split; [done | apply catalog_grows_refl]|].
  pose proof (for_each_require_table_state refs c) as Hs.
  destruct (for_each require_table refs c) as [[[]|e] c']; simpl in *;
    subst c'; [|done].
  intros [= <-]. simpl. split; [apply elem_of_app; right; by left|].
  unfold catalog_grows. simpl.
  split_and!; try done; [apply subseteq_snoc| |apply subseteq_snoc].
  intros (Nt & Ni & Nh). split; [by apply NoDup_snoc | done].
Qed.

Lemma create_hypertable_post c c1 :
  create_hypertable_transactions c = (Ok tt, c1) →
  "transactions" ∈ hypertables (pending c1) ∧ catalog_grows c c1.
Proof.
  unfold create_hypertable_transactions, require_table. munfold.
  case_bool_decide; simpl; [|done].
  case_bool_decide as Hh; simpl;
    [intros [= <-]; split; [done | apply catalog_grows_refl]|].
  destruct (transactions (pending c)) eqn:Htx; [|done].
  intros [= <-]. simpl. split; [apply elem_of_app; right; by left|].
  unfold catalog_grows. simpl. rewrite Htx.
  split_and!; try done; [apply subseteq_snoc| |apply subseteq_snoc].
  intros (Nt & Ni & Nh). do 2 (split; [done|]). by apply NoDup_snoc.
Qed.

Lemma ensure_index_post c c1 :
  (found ← select_assets_symbol_key;
   if (found : bool) then pass else create_unique_index_assets_symbol) c
    = (Ok tt, c1) →
  ("assets", "assets_symbol_key") ∈ indexes (pending c1) ∧ catalog_grows c c1.
Proof.
  unfold select_assets_symbol_key, create_unique_index_assets_symbol,
    require_table. munfold.
  case_bool_decide as Hi; simpl;
    [intros [= <-]; split; [done | apply catalog_grows_refl]|].
  case_bool_decide; simpl; [|done].
  case_bool_decide as Hk; simpl; [done|].
  case_bool_decide; simpl; [|done].
  intros [= <-]. simpl. split; [apply elem_of_app; right; by left|].
  unfold catalog_grows. simpl.
  split_and!; try done; [apply subseteq_snoc|].
  intros (Nt & Ni & Nh). split; [done|]. split; [|done].
  simpl. rewrite fmap_app. by apply NoDup_snoc.
Qed.

(** A bootstrap that returns has made the catalog ready, has left the rows
    alone and has committed. *)
Lemma ensure_schema_post c c1 :
  ensure_schema c = (Ok tt, c1) →
  schema_ready (pending c1) ∧ committed c1 = pending c1 ∧
  catalog_grows c c1.
Proof.
  unfold ensure_schema. intros H.
  apply bind_ok_inv in H as ([] & s1 & H1 & H).
  apply bind_ok_inv in H as ([] & s2 & H2 & H).
  apply bind_ok_inv in H as ([] & s3 & H3 & H).
  apply bind_ok_inv in H as ([] & s4 & H4 & H).
  assert (∃ s5, (found ← select_assets_symbol_key;
                 if (found : bool) then pass
                 else create_unique_index_assets_symbol) s4 = (Ok tt, s5) ∧
                commit false s5 = (Ok tt, c1)) as (s5 & H5 & H6).
  { apply bind_ok_inv in H as (found & s4' & Hsel & H).
    apply bind_ok_inv in H as ([] & s5 & Hidx & H).
    exists s5. split; [|done].
    unfold mbind, M_bind. by rewrite Hsel. }
  clear H.
  apply create_table_post in H1 as [T1 G1].
  apply create_table_post in H2 as [T2 G2].
  apply create_table_post in H3 as [T3 G3].
  apply create_hypertable_post in H4 as [T4 G4].
  apply ensure_index_post in H5 as [T5 G5].
  unfold commit in H6. munfold. injection H6 as <-. simpl.
  pose proof (catalog_grows_trans _ _ _ G4 G5) as G45.
  pose proof (catalog_grows_trans _ _ _ G3 G45) as G35.
  pose proof (catalog_grows_trans _ _ _ G2 G35) as G25.
  pose proof (catalog_grows_trans _ _ _ G1 G25) as G15.
  split; [|split; [done | exact G15]].
  destruct G25 as (S2 & _), G35 as (S3 & _), G45 as (S4 & _),
    G5 as (_ & _ & S5 & _).
  repeat split; auto.
Qed.

(** On a ready catalog the bootstrap finds everything and only commits. *)
Lemma ensure_schema_ready c :
  schema_ready (pending c) →
  ensure_schema c =
    (Ok tt, mkConn (pending c) (pending c) (users_id_seq c) (assets_id_seq c)
                   (transactions_id_seq c) (trace c ++ [EvCommit])).
Proof.
  intros (Tu & Ta & Tt & Th & Ti).
  unfold ensure_schema, create_table_if_not_exists,
    create_hypertable_transactions, select_assets_symbol_key, require_table,
    commit.
  munfold.
  by rewrite !bool_decide_eq_true_2 by done.
Qed.

Lemma for_each_require_table_ok ts c :
  Forall (λ t, t ∈ tables (pending c)) ts →
  for_each require_table ts c = (Ok tt, c).
Proof.
  induction 1 as [|t ts Ht _ IH]; simpl; [done|].
  unfold mbind, M_bind, require_table at 1. munfold.
  by rewrite (bool_decide_eq_true_2 _ Ht).
Qed.

Lemma create_table_ok t refs c :
  Forall (λ r, r ∈ tables (pending c)) refs →
  ∃ c1, create_table_if_not_exists t refs c = (Ok tt, c1).
Proof.
  intros Hrefs. unfold create_table_if_not_exists. munfold.
  case_bool_decide; [eauto|].
  rewrite for_each_require_table_ok by done. eauto.
Qed.

Lemma create_hypertable_ok c :
  "transactions" ∈ tables (pending c) →
  "transactions" ∈ hypertables (pending c) ∨ transactions (pending c) = [] →
  ∃ c1, create_hypertable_transactions c = (Ok tt, c1).
Proof.
  intros Ht Hh. unfold create_hypertable_transactions, require_table. munfold.
  rewrite (bool_decide_eq_true_2 _ Ht). simpl.
  case_bool_decide; [eauto|].
  destruct Hh as [Hh| ->]; [done | eauto].
Qed.

Lemma ensure_index_ok c :
  "assets" ∈ tables (pending c) →
  (∀ t, (t, "assets_symbol_key") ∈ indexes (pending c) → t = "assets") →
  NoDup (a_symbol <$> assets (pending c)) →
  ∃ c1, (found ← select_assets_symbol_key;
         if (found : bool) then pass
         else create_unique_index_assets_symbol) c = (Ok tt, c1).
Proof.
  intros Ht Hidx Hnd.
  unfold select_assets_symbol_key, create_unique_index_assets_symbol,
    require_table. munfold.
  case_bool_decide as Hi; simpl; [eauto|].
  rewrite (bool_decide_eq_true_2 _ Ht). simpl.
  rewrite bool_decide_eq_false_2.
  2:{ intros Hk. apply list_elem_of_fmap in Hk as ([t k] & Hk & Hin).
      simpl in Hk. subst k. by rewrite (Hidx t Hin) in Hin. }
  rewrite (bool_decide_eq_true_2 _ Hnd). eauto.
Qed.

Lemma bind_ok_intro {A B} (m : M A) (k : A → M B) c a c1 :
  m c = (Ok a, c1) → (m ≫= k) c = k a c1.
Proof. intros H. unfold mbind, M_bind. by rewrite H. Qed.

(** On a bootable store the bootstrap returns. *)
Lemma ensure_schema_succeeds c :
  bootable (pending c) → ∃ c1, ensure_schema c = (Ok tt, c1).
Proof.
  intros (Bh & Br & Bi & Bs & _). unfold ensure_schema.
  destruct (create_table_ok "users" [] c) as [s1 H1]; [constructor|].
  rewrite (bind_ok_intro _ _ _ _ _ H1).
  apply create_table_post in H1 as [T1 G1].
  destruct (create_table_ok "assets" [] s1) as [s2 H2]; [constructor|].
  rewrite (bind_ok_intro _ _ _ _ _ H2).
  apply create_table_post in H2 as [T2 G2].
  pose proof (catalog_grows_trans _ _ _ G1 G2) as G02.
  destruct (create_table_ok "transactions" ["users"; "assets"] s2)
    as [s3 H3].
  { destruct G2 as (S2 & _). repeat constructor; auto. }
  rewrite (bind_ok_intro _ _ _ _ _ H3).
  apply create_table_post in H3 as [T3 G3].
  pose proof (catalog_grows_trans _ _ _ G02 G3) as G03.
  destruct (create_hypertable_ok s3 T3) as [s4 H4].
  { destruct G03 as (_ & _ & S3 & _ & _ & R3).
    injection R3 as _ _ R3.
    destruct (decide ("transactions" ∈ tables (pending c))) as [Hin|Hnot].
    - left. auto.
    - right. rewrite R3. auto. }
  rewrite (bind_ok_intro _ _ _ _ _ H4).
  apply create_hypertable_post in H4 as [T4 G4].
  pose proof (catalog_grows_trans _ _ _ G03 G4) as G04.
  destruct (ensure_index_ok s4) as [s5 H5].
  { destruct G3 as (S3 & _), G4 as (S4 & _). auto. }
  { destruct G04 as (_ & _ & _ & _ & U4 & _).
    intros t Hin. apply U4, elem_of_app in Hin as [Hin|Hin]; [auto|].
    apply list_elem_of_singleton in Hin. congruence. }
  { destruct G04 as (_ & _ & _ & _ & _ & R4).
    injection R4 as _ R4 _. by rewrite R4. }
  unfold mbind at 1, M_bind at 1.
  unfold mbind, M_bind in H5.
  destruct (select_assets_symbol_key s4) as [[found|e] s4'] eqn:Hsel;
    [|done].
  unfold mbind at 1, M_bind at 1. rewrite H5.
  unfold commit. munfold. eauto.
Qed.

Lemma bootable_after_ensure_schema c c1 :
  bootable (pending c) → ensure_schema c = (Ok tt, c1) →
  bootable (committed c1) ∧ bootable (pending c1).
Proof.
  intros (Bh & Br & Bi & Bs & Bn) H.
  apply ensure_schema_post in H
    as ((_ & _ & Tt & Th & _) & Hq & (_ & _ & _ & N & U & R)).
  injection R as _ Ra Rt.
  assert (bootable (pending c1)) as Hb.
  { unfold bootable. split_and!; auto.
    - by intros Hnot.
    - intros t Hin. apply U, elem_of_app in Hin as [Hin|Hin]; [auto|].
      apply list_elem_of_singleton in Hin. congruence.
    - by rewrite Ra. }
  by rewrite Hq.
Qed.

Lemma respects_ensure_schema_bootable : respects keeps_bootable ensure_schema.
Proof.
  intros c [Hc Hp].
  destruct (ensure_schema_succeeds c Hp) as [c1 H]. rewrite H. simpl.
  by apply (bootable_after_ensure_schema c).
Qed.

#[local] Instance keeps_bootable_atomic : Atomic keeps_bootable.
Proof.
  split; [split|..]; unfold keeps_bootable; simpl; try done.
  - by intros c H.
  - intros x y z Hxy Hyz H. auto.
  - intros c a Hfresh [Hc (Bh & Br & Bi & Bs & Bn)]. split; [done|].
    unfold bootable. simpl. split_and!; try done.
    rewrite fmap_app. by apply NoDup_snoc.
  - intros c new Ht _ [Hc (Bh & Br & Bi & Bs & Bn)]. split; [done|].
    unfold bootable. simpl. split_and!; try done.
  - intros c [Hc Hp]. done.
Qed.

#[local] Instance keeps_bootable_committing : Committing keeps_bootable.
Proof. intros c [Hc Hp]. done. Qed.

Lemma bootable_empty : bootable empty_db.
Proof.
  unfold bootable, catalog_nodup. simpl.
  split_and!; try done; try constructor;
    intros;
    by match goal with H : _ ∈ [] |- _ => apply elem_of_nil in H end.
Qed.

Lemma reachable_bootable c :
  reachable c → bootable (committed c) ∧ bootable (pending c).
Proof.
  induction 1 as [|o c Hc IH].
  - split; apply bootable_empty.
  - by apply (respects_run_op keeps_bootable o c
                respects_ensure_schema_bootable).
Qed.

(** C8.  In every state the system reaches from the empty database, and in
    any other state in which a run of the bootstrap returns, two runs in
    succession both return, and the second leaves the store as the first
    left it: the same tables, indexes and hypertables, each as many times as
    before, the same rows and sequences; all it does is commit.  No object
    is there twice afterwards, if none was before (as in every state the
    system reaches). *)
Theorem ensure_schema_twice (c : conn) :
  reachable c ∨ (∃ c1, ensure_schema c = (Ok tt, c1)) →
  ∃ c1 c2,
    ensure_schema c = (Ok tt, c1) ∧
    ensure_schema c1 = (Ok tt, c2) ∧
    store_of c2 = store_of c1 ∧
    trace c2 = trace c1 ++ [EvCommit] ∧
    (reachable c ∨ catalog_nodup (pending c) → catalog_nodup (committed c2)).
Proof.
  intros Hc.
  assert (∃ c1, ensure_schema c = (Ok tt, c1)) as [c1 H].
  { destruct Hc as [Hc|Hc]; [|done].
    apply ensure_schema_succeeds. by apply reachable_bootable. }
  pose proof (ensure_schema_post _ _ H) as (Hready & Hq & Hg).
  exists c1. eexists. split; [exact H|].
  split; [by apply ensure_schema_ready|].
  unfold store_of. simpl. rewrite Hq.
  split; [done|]. split; [done|].
  intros Hn. destruct Hg as (_ & _ & _ & N & _). apply N.
  destruct Hn as [Hn|Hn]; [|done].
  by destruct (reachable_bootable c Hn) as [_ (_ & _ & _ & _ & ?)].
Qed.

Lemma ensure_schema_twice_witness :
  reachable (run_op (OpMain true [example_cycle]) fresh) ∧
  (∃ c1 c2,
     ensure_schema fresh = (Ok tt, c1) ∧
     ensure_schema c1 = (Ok tt, c2) ∧
     store_of c2 = store_of c1) ∧
  (∃ c1 c2,
     ensure_schema (run_op (OpMain true [example_cycle]) fresh) = (Ok tt, c1) ∧
     ensure_schema c1 = (Ok tt, c2) ∧
     store_of c2 = store_of c1).
Proof.
  assert (reachable (run_op (OpMain true [example_cycle]) fresh)) as Hreach.
  { apply reachable_step. apply reachable_fresh. }
  split; [exact Hreach|]. split.
  - destruct (ensure_schema_twice fresh (or_introl reachable_fresh))
      as (c1 & c2 & H1 & H2 & Hs & _).
    exists c1, c2. split; [exact H1|]. split; [exact H2 | exact Hs].
  - destruct (ensure_schema_twice _ (or_introl Hreach))
      as (c1 & c2 & H1 & H2 & Hs & _).
    exists c1, c2. split; [exact H1|]. split; [exact H2 | exact Hs].
Defined.

(** C2 fails on the code: a second seeding adds a second actor row.  [users]
    has no unique constraint but its primary key, whose value comes from the
    sequence, so [ON CONFLICT DO NOTHING] never finds a conflict.  The asset
    rows stay one per symbol. *)
Theorem seed_twice_two_actor_rows :
  (ensure_schema ;; seed_reference_data ;; seed_reference_data) fresh
    = (Ok tt,
       ((ensure_schema ;; seed_reference_data ;; seed_reference_data) fresh).2)
  ∧ users (committed
       ((ensure_schema ;; seed_reference_data ;; seed_reference_data) fresh).2)
    = [mkUser 1 "Sarah"; mkUser 2 "Sarah"]
  ∧ assets (committed
       ((ensure_schema ;; seed_reference_data ;; seed_reference_data) fresh).2)
    = [mkAsset 1 "BTC" "Bitcoin"; mkAsset 2 "ETH" "Ethereum"].
Proof. vm_compute. done. Qed.

(** * Further properties of the script *)

(** ** The driver loop *)

(** A pass in full: what the handlers and the sleep make of the outcome of
    the cycle. *)
Lemma loop_body_eval w c :
  loop_body w c =
    match ingest_once_sigint w c with
    | (Ok _, c1) => (pass_result w, log_event (EvSleep POLL_SECONDS) c1)
    | (Raise e, c1) =>
        if isinstance_Exception e then
          if bool_decide (sigint w = Some AtHandler)
          then (Raise KeyboardInterrupt, c1)
          else if isinstance_HTTPError e
          then (pass_result w,
                log_event (EvSleep POLL_SECONDS)
                  (log_event (EvPrint (LogHttpError e)) c1))
          else if fail_rollback w
          then (Raise (DatabaseError InterfaceError), rolled_back e c1)
          else (pass_result w,
                log_event (EvSleep POLL_SECONDS) (rolled_back e c1))
        else (Raise e, c1)
    end.
Proof.
  destruct (ingest_once_sigint w c) as [[[]|e] c1] eqn:Hrun.
  - by apply loop_body_ok_sigint.
  - unfold loop_body, try_except. unfold mbind, M_bind. rewrite Hrun.
    destruct (isinstance_Exception e) eqn:Hexc.
    + rewrite handler_eval by done. case_bool_decide; [done|].
      destruct (isinstance_HTTPError e); [apply time_sleep_eval|].
      destruct (fail_rollback w); [done | apply time_sleep_eval].
    + by destruct e.
Qed.

Lemma ingest_once_sigint_interrupted w c :
  (ingest_once_sigint w c).1 = Raise KeyboardInterrupt → sigint w ≠ None.
Proof.
  intros H Hsig. rewrite ingest_once_sigint_calm in H by done.
  by apply ingest_once_raises_exception in H.
Qed.

Lemma ingest_once_sigint_raises w c e :
  (ingest_once_sigint w c).1 = Raise e →
  (e = KeyboardInterrupt ∧ sigint w ≠ None) ∨ isinstance_Exception e = true.
Proof.
  intros H. destruct (ingest_once_sigint_cases w c) as [Heq|[Hki _]].
  - right. rewrite Heq in H. by apply ingest_once_raises_exception in H.
  - left. rewrite Hki in H. injection H as <-.
    split; [done|]. by apply (ingest_once_sigint_interrupted w c).
Qed.

Lemma loop_body_fst w c : undisturbed w → (loop_body w c).1 = pass_result w.
Proof.
  intros [Hsig Hrb]. rewrite loop_body_eval.
  pose proof (ingest_once_sigint_raises w c) as Hr.
  destruct (ingest_once_sigint w c) as [[[]|e] c1]; [done|].
  destruct (Hr e eq_refl) as [[_ ?]| ->]; [done|].
  rewrite Hsig, Hrb. rewrite bool_decide_eq_false_2 by done.
  by destruct (isinstance_HTTPError e).
Qed.

Lemma loop_body_raises w c e :
  (loop_body w c).1 = Raise e →
  (e = KeyboardInterrupt ∧ (interrupt w = true ∨ sigint w ≠ None)) ∨
  (e = DatabaseError InterfaceError ∧ fail_rollback w = true).
Proof.
  rewrite loop_body_eval.
  assert (pass_result w = Raise e → e = KeyboardInterrupt ∧ interrupt w = true)
    as Hpass.
  { unfold pass_result. destruct (interrupt w); [|done]. by intros [= <-]. }
  pose proof (ingest_once_sigint_raises w c) as Hr.
  destruct (ingest_once_sigint w c) as [[[]|e0] c1]; simpl.
  { intros H. left. destruct (Hpass H). auto. }
  destruct (Hr e0 eq_refl) as [[-> Hsig]|Hexc].
  { simpl. intros [= <-]. left. auto. }
  rewrite Hexc. case_bool_decide as Hh; simpl.
  { intros [= <-]. left. split; [done|]. right. congruence. }
  destruct (isinstance_HTTPError e0); simpl.
  { intros H. left. destruct (Hpass H). auto. }
  destruct (fail_rollback w); simpl.
  - intros [= <-]. by right.
  - intros H. left. destruct (Hpass H). auto.
Qed.

(** X1.  Only two things end the loop: Ctrl+C, and a rollback that raises.
    No error of the fetch, of the store calls or of the lookups of a cycle
    leaves the loop by itself: a pass that Ctrl+C does not find before its
    sleep, and whose rollback (if it comes to one) returns, ends normally
    after the sleep, or with [KeyboardInterrupt] when Ctrl+C arrived during
    the sleep.  An exception that leaves a pass is [KeyboardInterrupt], and
    Ctrl+C did arrive, or it is the exception of a rollback that failed. *)
Theorem loop_body_result (w : cycle_input) (c : conn) :
  (undisturbed w → (loop_body w c).1 = pass_result w) ∧
  ∀ e, (loop_body w c).1 = Raise e →
       (e = KeyboardInterrupt ∧ (interrupt w = true ∨ sigint w ≠ None)) ∨
       (e = DatabaseError InterfaceError ∧ fail_rollback w = true).
Proof. split; [apply loop_body_fst | apply loop_body_raises]. Qed.

Lemma loop_body_result_witness :
  (loop_body insert_failure_cycle running_store).1 = Ok tt ∧
  fail_rollback lost_connection_cycle = true ∧
  (loop_body lost_connection_cycle running_store).1
    = Raise (DatabaseError InterfaceError) ∧
  sigint ctrl_c_cycle ≠ None ∧
  (loop_body ctrl_c_cycle running_store).1 = Raise KeyboardInterrupt.
Proof.
  destruct (loop_body_result insert_failure_cycle running_store) as [Hok _].
  destruct (loop_body_result lost_connection_cycle running_store) as [_ Hlost].
  destruct (loop_body_result ctrl_c_cycle running_store) as [_ Hctrl].
  assert ((loop_body lost_connection_cycle running_store).1
          = Raise (DatabaseError InterfaceError)) as H1
    by (vm_compute; reflexivity).
  assert ((loop_body ctrl_c_cycle running_store).1 = Raise KeyboardInterrupt)
    as H2 by (vm_compute; reflexivity).
  split; [exact (Hok (conj eq_refl eq_refl))|].
  destruct (Hlost _ H1) as [[Hne _]|[_ Hrb]]; [discriminate Hne|].
  split; [exact Hrb|]. split; [exact H1|].
  destruct (Hctrl _ H2) as [[_ [Hint|Hsig]]|[Hne _]];
    [discriminate Hint | | discriminate Hne].
  split; [exact Hsig | exact H2].
Defined.

Lemma while_true_uninterrupted ws c :
  Forall (λ w, interrupt w = false) ws → Forall undisturbed ws →
  (while_true ws c).1 = Ok tt.
Proof.
  intros Hws Hun. revert c.
  induction Hws as [|w ws Hw _ IH]; intros c; [done|].
  apply Forall_cons in Hun as [Hu Hun].
  simpl. unfold mbind, M_bind.
  pose proof (loop_body_fst w c Hu) as Hres.
  destruct (loop_body w c) as [r c1]. simpl in Hres. subst r.
  unfold pass_result. rewrite Hw. by apply IH.
Qed.

(** X2.  The loop has no exit of its own.  Once the bootstrap and the
    seeding of [main] have returned, a run in which Ctrl+C never arrives and
    no rollback raises is still polling after any number of cycles, whatever
    failed in them: it has not crashed, has not returned, and is in the
    state its passes of the loop have made. *)
Theorem main_polls_until_interrupted (ws : list cycle_input) (c c0 : conn) :
  startup c = (Ok tt, c0) →
  Forall (λ w, interrupt w = false) ws →
  Forall undisturbed ws →
  main true ws c =
    (Polling, (while_true ws (log_event (EvPrint LogStarting) c0)).2).
Proof.
  intros Hstart Hws Hun. rewrite (main_startup_ok _ _ _ Hstart).
  pose proof (while_true_uninterrupted ws
                (log_event (EvPrint LogStarting) c0) Hws Hun) as Hres.
  destruct (while_true ws _) as [r c1]. simpl in Hres. by subst r.
Qed.

Lemma main_polls_until_interrupted_witness :
  ∃ c', main true [example_cycle; timeout_cycle; insert_failure_cycle;
                   unknown_asset_cycle; http_error_cycle; example_cycle]
             fresh = (Polling, c') ∧
        length (transactions (committed c')) = 4%nat.
Proof.
  eexists. split.
  - apply (main_polls_until_interrupted _ fresh (startup fresh).2).
    + vm_compute. reflexivity.
    + repeat constructor.
    + repeat constructor.
  - vm_compute. reflexivity.
Defined.

Lemma loop_body_trace_sleep w c :
  undisturbed w → ∃ tr, trace (loop_body w c).2 = tr ++ [EvSleep POLL_SECONDS].
Proof.
  intros [Hsig Hrb]. rewrite loop_body_eval.
  pose proof (ingest_once_sigint_raises w c) as Hr.
  destruct (ingest_once_sigint w c) as [[[]|e] c1]; [simpl; eauto|].
  destruct (Hr e eq_refl) as [[_ ?]| ->]; [done|].
  rewrite Hsig, Hrb. rewrite bool_decide_eq_false_2 by done.
  destruct (isinstance_HTTPError e); simpl; eauto.
Qed.

(** X3.  Ctrl+C ends the run at the first sleep it arrives in: when the
    passes before it and the pass itself got to their sleep, the cycles that
    would have followed are not run, the work of the cycles before it stays
    committed, and [main] prints its last line, closes the connection (which
    drops what was pending) and returns. *)
Theorem main_stops_at_first_interrupt (ws1 ws2 : list cycle_input)
    (w : cycle_input) (c c0 : conn) :
  startup c = (Ok tt, c0) →
  Forall (λ w, interrupt w = false) ws1 →
  interrupt w = true →
  Forall undisturbed (ws1 ++ [w]) →
  ∃ c' tr,
    main true (ws1 ++ w :: ws2) c = (Exited, c') ∧
    main true (ws1 ++ [w]) c = (Exited, c') ∧
    committed c' =
      committed (while_true (ws1 ++ [w]) (log_event (EvPrint LogStarting) c0)).2 ∧
    pending c' = committed c' ∧
    trace c' = tr ++ [EvSleep POLL_SECONDS; EvPrint LogStopping; EvClose].
Proof.
  intros Hstart Hws Hw Hun. apply Forall_app in Hun as [Hun1 Hunw].
  apply (proj1 (Forall_singleton _ _)) in Hunw.
  set (c1 := log_event (EvPrint LogStarting) c0).
  assert (∀ ws, while_true (ws1 ++ w :: ws) c1 =
                (Raise KeyboardInterrupt,
                 (loop_body w (while_true ws1 c1).2).2)) as Hloop.
  { intros ws. rewrite while_true_app by by apply while_true_uninterrupted.
    simpl. unfold mbind, M_bind.
    pose proof (loop_body_fst w (while_true ws1 c1).2 Hunw) as Hres.
    destruct (loop_body w _) as [r c2]. simpl in *. subst r.
    unfold pass_result. by rewrite Hw. }
  destruct (loop_body_trace_sleep w (while_true ws1 c1).2 Hunw) as [tr Htr].
  eexists _, tr. rewrite !(main_startup_ok _ _ _ Hstart).
  fold c1. rewrite (Hloop ws2), (Hloop []).
  split; [reflexivity|]. split; [reflexivity|]. simpl.
  split; [reflexivity|]. split; [reflexivity|].
  rewrite Htr. by rewrite <- !app_assoc.
Qed.

Lemma main_stops_at_first_interrupt_witness :
  ∃ c',
    main true [example_cycle; interrupted_cycle; example_cycle; example_cycle]
         fresh = (Exited, c') ∧
    main true [example_cycle; interrupted_cycle] fresh = (Exited, c').
Proof.
  destruct (main_stops_at_first_interrupt [example_cycle]
              [example_cycle; example_cycle] interrupted_cycle
              fresh (startup fresh).2)
    as (c' & tr & H1 & H2 & _).
  - vm_compute. reflexivity.
  - repeat constructor.
  - reflexivity.
  - repeat constructor.
  - exists c'. split; [exact H1 | exact H2].
Defined.

(** ** Reading the assets *)

Lemma foldl_insert_origin (rows : list (Z * string)) (m : gmap string Z) s aid :
  foldl (λ m '(aid, sym), <[sym := aid]> m) m rows !! s = Some aid →
  (aid, s) ∈ rows ∨ m !! s = Some aid.
Proof.
  revert m. induction rows as [|[aid' sym'] rows IH]; intros m; simpl; [auto|].
  intros H. apply IH in H as [H|H]; [left; by right|].
  destruct (decide (sym' = s)) as [->|Hne].
  - rewrite lookup_insert_eq in H. injection H as ->. left. by left.
  - rewrite lookup_insert_ne in H by done. by right.
Qed.

(** X4.  [get_asset_id_map] only reads: on a store with an [assets] table it
    leaves the store as it is and returns a map that has an entry exactly
    for the symbols of the table, each entry being the id of a row with that
    symbol; when symbols are unique, every row is found under its symbol. *)
Theorem get_asset_id_map_lookup (c : conn) :
  "assets" ∈ tables (pending c) →
  ∃ m c1,
    get_asset_id_map false c = (Ok m, c1) ∧
    store_of c1 = store_of c ∧
    (∀ s, s ∉ a_symbol <$> assets (pending c) → m !! s = None) ∧
    (∀ s aid, m !! s = Some aid →
              ∃ a, a ∈ assets (pending c) ∧ a_symbol a = s ∧ a_id a = aid) ∧
    (NoDup (a_symbol <$> assets (pending c)) →
     ∀ a, a ∈ assets (pending c) → m !! a_symbol a = Some (a_id a)).
Proof.
  intros Ht. eexists _, _. split; [by apply get_asset_id_map_ok|].
  split; [reflexivity|]. split; [|split].
  - intros s Hs. by apply sym_to_id_assets_notin.
  - intros s aid Hm. apply foldl_insert_origin in Hm as [Hm|Hm].
    + apply list_elem_of_fmap in Hm as (a & [= -> ->] & Ha). eauto.
    + by rewrite lookup_empty in Hm.
  - intros Hnd a Ha. by apply sym_to_id_assets_in.
Qed.

Lemma get_asset_id_map_lookup_witness :
  ∃ m, (get_asset_id_map false seeded_store).1 = Ok m ∧
       m !! "BTC" = Some 1 ∧ m !! "ETH" = Some 2 ∧ m !! "SOL" = None.
Proof.
  assert ("assets" ∈ tables (pending seeded_store)) as Ht by decide_closed.
  destruct (get_asset_id_map_lookup seeded_store Ht)
    as (m & c1 & Hrun & _ & Hnone & _ & Hin).
  exists m. split; [by rewrite Hrun|].
  assert (NoDup (a_symbol <$> assets (pending seeded_store))) as Hnd
    by decide_closed.
  split; [|split].
  - apply (Hin Hnd (mkAsset 1 "BTC" "Bitcoin")). decide_closed.
  - apply (Hin Hnd (mkAsset 2 "ETH" "Ethereum")). decide_closed.
  - apply Hnone. decide_closed.
Defined.

(** ** A cycle on any response *)

Lemma dict_get_elem {V} (d : list (string * V)) k :
  k ∈ d.*1 → ∃ v, dict_get d k = Ok v.
Proof.
  induction d as [|[k' v'] d IH]; simpl; intros Hk.
  - by apply elem_of_nil in Hk.
  - case_bool_decide as Heq; [eauto|].
    apply elem_of_cons in Hk as [->|Hk]; [done | auto].
Qed.

Lemma foldl_insert_is_Some (rows : list (Z * string)) (m : gmap string Z) s :
  s ∈ rows.*2 →
  ∃ aid, foldl (λ m '(aid, sym), <[sym := aid]> m) m rows !! s = Some aid.
Proof.
  revert m. induction rows as [|[aid' sym'] rows IH]; intros m Hs; simpl.
  - by apply elem_of_nil in Hs.
  - destruct (decide (s ∈ rows.*2)) as [Hin|Hnot]; [by apply IH|].
    apply elem_of_cons in Hs as [->|Hs]; [|done]. simpl.
    rewrite foldl_insert_notin by done. rewrite lookup_insert_eq. eauto.
Qed.

Lemma build_rows_resolvable (xs : list asset_row) items ts rows0 :
  Forall (resolvable xs) items →
  ∃ vs, build_rows items
          (sym_to_id ((λ a, (a_id a, a_symbol a)) <$> xs)) ts rows0
          = Ok (rows0 ++ vs) ∧
        Forall2 (row_of_item xs ts) items vs.
Proof.
  intros Hitems. revert rows0.
  induction Hitems as [|[cg_id payload] items (sym & name & Hk & Hs & Hp) _ IH];
    intros rows0.
  - exists []. split; [simpl; by rewrite app_nil_r | constructor].
  - simpl in Hk, Hs, Hp. cbn [build_rows]. unfold mbind, result_bind.
    rewrite (dict_get_in _ _ _ ASSETS_keys_NoDup Hk). simpl.
    destruct (foldl_insert_is_Some
                ((λ a, (a_id a, a_symbol a)) <$> xs) ∅ sym) as [aid Haid].
    { by rewrite <- list_fmap_compose. }
    unfold sym_to_id at 1. rewrite Haid.
    destruct (dict_get_elem payload "usd" Hp) as [price Hprice].
    rewrite Hprice.
    destruct (IH (rows0 ++ [(1, aid, 1, price, ts)])) as (vs & Hvs & Hall).
    exists ((1, aid, 1, price, ts) :: vs).
    split; [by rewrite Hvs, <- app_assoc|].
    constructor; [|done].
    exists aid, price. split; [done|]. split; [done|].
    apply foldl_insert_origin in Haid as [Hin|Hin];
      [|by rewrite lookup_empty in Hin].
    apply list_elem_of_fmap in Hin as (a & [= -> ->] & Ha).
    exists (a_symbol a), name, a. done.
Qed.

Lemma with_ids_app last rows1 rows2 :
  with_ids last (rows1 ++ rows2) =
    with_ids last rows1 ++ with_ids (last + Z.of_nat (length rows1)) rows2.
Proof.
  revert last. induction rows1 as [|[[[[uid aid] amount] price] ts] rows1 IH];
    intros last; simpl.
  - by rewrite Z.add_0_r.
  - rewrite IH. do 3 f_equal. lia.
Qed.

Lemma with_ids_bound last rows :
  Forall (λ r, t_id r ≤ last + Z.of_nat (length rows)) (with_ids last rows).
Proof.
  revert last. induction rows as [|[[[[uid aid] amount] price] ts] rows IH];
    intros last; simpl; constructor.
  - simpl. lia.
  - eapply Forall_impl; [apply IH|]. simpl. intros r Hr. lia.
Qed.

Lemma with_ids_records xs ts items vs last :
  Forall2 (row_of_item xs ts) items vs →
  Forall2 (records xs ts) items (with_ids last vs).
Proof.
  intros H. revert last.
  induction H as [|item v items vs (aid & price & -> & Hp & Ha) _ IH];
    intros last; simpl; constructor; [|apply IH].
  unfold records. simpl. done.
Qed.

(** The statements of [execute_values] on rows that reference an actor and
    assets of the open transaction: every page is inserted. *)
Lemma for_each_insert_ok pages c :
  "transactions" ∈ tables (pending c) →
  Forall (λ r, t_id r ≤ transactions_id_seq c) (transactions (pending c)) →
  Forall (λ v : tx_values, v.1.1.1.1 ∈ u_id <$> users (pending c) ∧
                           v.1.1.1.2 ∈ a_id <$> assets (pending c))
         (concat pages) →
  ∃ c1,
    for_each (insert_transactions false) pages c = (Ok tt, c1) ∧
    committed c1 = committed c ∧
    pending c1 =
      set_transactions
        (transactions (pending c) ++
         with_ids (transactions_id_seq c) (concat pages)) (pending c) ∧
    transactions_id_seq c1 =
      transactions_id_seq c + Z.of_nat (length (concat pages)) ∧
    trace c1 = trace c ++ (EvInsertTransactions <$> pages).
Proof.
  revert c. induction pages as [|page pages IH]; intros c Ht Hseq Hfk.
  - exists c. simpl. rewrite !app_nil_r, Z.add_0_r.
    split; [done|]. split; [done|]. split; [by destruct c, pending0 | done].
  - simpl in Hfk. apply Forall_app in Hfk as [Hfk1 Hfk2].
    cbn [for_each]. unfold mbind, M_bind.
    rewrite (insert_transactions_ok page c Ht Hseq Hfk1).
    edestruct (IH (set_pending
       (set_transactions
          (transactions (pending c) ++ with_ids (transactions_id_seq c) page)
          (pending c))
       (set_transactions_id_seq
          (transactions_id_seq c + Z.of_nat (length page))
          (log_event (EvInsertTransactions page) c))))
      as (c1 & Hrun & Hc & Hp & Hs & Htr).
    + done.
    + simpl. apply Forall_app. split.
      * eapply Forall_impl; [exact Hseq|]. simpl. intros r Hr. lia.
      * apply with_ids_bound.
    + done.
    + exists c1. split; [exact Hrun|]. simpl in *.
      split; [done|]. split; [|split].
      * rewrite Hp. unfold set_transactions. simpl.
        by rewrite with_ids_app, app_assoc.
      * rewrite Hs, length_app. lia.
      * rewrite Htr. by rewrite <- app_assoc.
Qed.

Lemma concat_paginate_fuel {A} (fuel n : nat) (l : list A) :
  (0 < n)%nat → (length l ≤ fuel)%nat → concat (paginate_fuel fuel n l) = l.
Proof.
  intros Hn. revert l. induction fuel as [|fuel IH]; intros l Hl.
  - destruct l; [done | simpl in Hl; lia].
  - destruct l as [|x l]; [done|].
    cbn [paginate_fuel concat]. rewrite IH.
    + apply take_drop.
    + rewrite length_drop. simpl in *. lia.
Qed.

Lemma concat_paginate {A} (n : nat) (l : list A) :
  (0 < n)%nat → concat (paginate n l) = l.
Proof. intros Hn. by apply concat_paginate_fuel. Qed.

Lemma row_of_item_references (d : db) ts items vs :
  1 ∈ u_id <$> users d →
  Forall2 (row_of_item (assets d) ts) items vs →
  Forall (λ v : tx_values, v.1.1.1.1 ∈ u_id <$> users d ∧
                           v.1.1.1.2 ∈ a_id <$> assets d) vs.
Proof.
  intros Hactor H. induction H as [|item v items vs Hv _ IH];
    constructor; [|done].
  destruct Hv as (aid & price & -> & _ & sym & name & a & _ & Ha & _ & <-).
  simpl. split; [done|]. by apply list_elem_of_fmap_2.
Qed.

(** X5.  On a seeded store, a cycle whose fetch returns any response whose
    items can all be resolved, and in which the store does not fail,
    returns normally and commits one observation row per item of the
    response, in the order of the response, after the rows that were there:
    each with actor 1, amount 1, the ["usd"] price of its item, the id of
    the asset row of its symbol, and the one clock reading of the cycle.
    Nothing is left pending, and the line printed last gives the number of
    items. *)
Theorem ingest_once_one_row_per_item (w : cycle_input) (c : conn)
    (data : prices) :
  seeded c →
  (fetch_prices (net w) c).1 = Ok data →
  fail_select w = false → fail_insert w = false → fail_commit w = false →
  Forall (resolvable (assets (committed c))) data →
  ∃ c' new tr,
    ingest_once w c = (Ok tt, c') ∧
    transactions (committed c') = transactions (committed c) ++ new ∧
    Forall2 (records (assets (committed c)) (now w)) data new ∧
    users (committed c') = users (committed c) ∧
    assets (committed c') = assets (committed c) ∧
    quiescent c' ∧
    trace c' = tr ++ [EvCommit; EvPrint (LogInserted (now w) (length data))].
Proof.
  intros (Hq & Hta & Htt & Hnd & Hactor & Hseq) Hfetch Hfs Hfi Hfc Hdata.
  unfold quiescent in Hq.
  destruct (build_rows_resolvable (assets (committed c)) data (now w) [] Hdata)
    as (rows & Hrows & Hcorr). simpl in Hrows.
  unfold ingest_once. unfold mbind at 1, M_bind at 1.
  pose proof (fetch_prices_state (net w) c) as Hst.
  destruct (fetch_prices (net w) c) as [r c1]. simpl in Hfetch, Hst. subst r c1.
  rewrite Hfs. unfold mbind at 1, M_bind at 1.
  rewrite get_asset_id_map_ok by (simpl; by rewrite Hq).
  unfold mbind at 1, M_bind at 1. unfold lift.
  simpl pending. rewrite Hq, Hrows, Hfi, Hfc.
  unfold mbind at 1, M_bind at 1. unfold execute_values.
  edestruct (for_each_insert_ok (paginate 100 rows)
               (log_event EvSelectAssets
                  (log_event (EvHttpGet "bitcoin,ethereum") c)))
    as (c2 & Hrun & Hc2 & Hp2 & Hs2 & Ht2).
  { simpl. by rewrite Hq. }
  { simpl. by rewrite Hq. }
  { rewrite concat_paginate by lia. simpl. rewrite Hq.
    by apply (row_of_item_references _ (now w) data). }
  rewrite Hrun. rewrite concat_paginate in Hp2 by lia. simpl in Hp2, Ht2, Hc2.
  unfold commit, print, emit, modify, mbind, M_bind. simpl.
  eexists _, (with_ids (transactions_id_seq c) rows), _.
  split; [reflexivity|]. simpl. rewrite Hp2. simpl. rewrite Hq.
  split; [done|]. split; [by apply with_ids_records|].
  split; [done|]. split; [done|]. split; [done|].
  rewrite (Forall2_length _ _ _ Hcorr). by rewrite <- app_assoc.
Qed.

Lemma ingest_once_one_row_per_item_witness :
  ∃ c', ingest_once example_cycle running_store = (Ok tt, c') ∧
        length (transactions (committed c')) = 4%nat.
Proof.
  assert (seeded running_store) as Hseeded.
  { repeat split; try (vm_compute; reflexivity); decide_closed. }
  assert (Forall (resolvable (assets (committed running_store)))
            response_btc_eth) as Hdata.
  { repeat constructor.
    - exists "BTC", "Bitcoin". repeat split; decide_closed.
    - exists "ETH", "Ethereum". repeat split; decide_closed. }
  destruct (ingest_once_one_row_per_item example_cycle running_store
              response_btc_eth Hseeded)
    as (c' & new & tr & Hrun & Htx & Hcorr & _); try reflexivity; [exact Hdata|].
  exists c'. split; [exact Hrun|].
  rewrite Htx, length_app, <- (Forall2_length _ _ _ Hcorr).
  vm_compute. reflexivity.
Defined.

(** X6.  On an empty response [{}] the cycle sends no [INSERT] at all (so a
    store that would fail one is not noticed): after the request and the
    [SELECT] it commits and prints that 0 rows were inserted.  The rows and
    the sequences are as before. *)
Theorem ingest_once_empty_response (w : cycle_input) (c : conn) :
  (fetch_prices (net w) c).1 = Ok [] →
  fail_select w = false → fail_commit w = false →
  "assets" ∈ tables (pending c) →
  ∃ c',
    ingest_once w c = (Ok tt, c') ∧
    committed c' = pending c ∧ pending c' = pending c ∧
    (users_id_seq c', assets_id_seq c', transactions_id_seq c') =
      (users_id_seq c, assets_id_seq c, transactions_id_seq c) ∧
    trace c' = trace c ++ [ EvHttpGet "bitcoin,ethereum"; EvSelectAssets;
                            EvCommit; EvPrint (LogInserted (now w) 0) ].
Proof.
  intros Hfetch Hfs Hfc Ht.
  unfold ingest_once. unfold mbind at 1, M_bind at 1.
  pose proof (fetch_prices_state (net w) c) as Hst.
  destruct (fetch_prices (net w) c) as [r c1]. simpl in Hfetch, Hst. subst r c1.
  rewrite Hfs, Hfc. unfold mbind at 1, M_bind at 1.
  rewrite get_asset_id_map_ok by done.
  eexists. split; [reflexivity|]. simpl.
  by rewrite <- !app_assoc.
Qed.

Lemma ingest_once_empty_response_witness :
  ∃ c', ingest_once empty_response_cycle running_store = (Ok tt, c') ∧
        committed c' = committed running_store.
Proof.
  assert ("assets" ∈ tables (pending running_store)) as Ht by decide_closed.
  destruct (ingest_once_empty_response empty_response_cycle running_store
              eq_refl eq_refl eq_refl Ht)
    as (c' & Hrun & Hc & _).
  exists c'. split; [exact Hrun|]. rewrite Hc. vm_compute. reflexivity.
Defined.

Lemma build_rows_missing_usd items (m : gmap string Z) ts rows cg_id payload :
  (cg_id, payload) ∈ items → "usd" ∉ payload.*1 →
  ∃ key, build_rows items m ts rows = Raise (KeyError key).
Proof.
  intros Hin Hp. revert rows.
  induction items as [|[k p] items IH]; intros rows.
  - by apply elem_of_nil in Hin.
  - cbn [build_rows]. unfold mbind, result_bind.
    destruct (dict_get ASSETS k) as [entry|e1] eqn:H1.
    2:{ apply dict_get_raise in H1 as ->. eauto. }
    destruct (m !! entry.1); [|eauto].
    apply elem_of_cons in Hin as [[= <- <-]|Hin].
    + rewrite (dict_get_notin _ _ Hp). eauto.
    + destruct (dict_get p "usd") as [price|e3] eqn:H3.
      2:{ apply dict_get_raise in H3 as ->. eauto. }
      by apply IH.
Qed.

(** X7.  When an item of the response has no ["usd"] price, a cycle whose
    fetch and [SELECT] succeed raises a [KeyError] while it builds [rows],
    before any row is written, also for the items that had a price: only
    the request and the [SELECT] were sent.  The pass commits nothing,
    whatever else happens in it.  When Ctrl+C stays away and the rollback
    returns, the second handler of [main] logs and rolls back, and the loop
    goes on to the sleep. *)
Theorem missing_price_raises_before_write (w : cycle_input) (c : conn)
    (data : prices) (cg_id : string) (payload : list (string * Q)) :
  (fetch_prices (net w) c).1 = Ok data →
  fail_select w = false →
  "assets" ∈ tables (pending c) →
  (cg_id, payload) ∈ data →
  "usd" ∉ payload.*1 →
  ∃ key c1,
    ingest_once w c = (Raise (KeyError key), c1) ∧
    store_of c1 = store_of c ∧
    trace c1 = trace c ++ [EvHttpGet "bitcoin,ethereum"; EvSelectAssets] ∧
    committed (loop_body w c).2 = committed c ∧
    (sigint w = None → fail_rollback w = false →
     ∃ c2,
       loop_body w c = (pass_result w, c2) ∧
       committed c2 = committed c ∧
       pending c2 = committed c ∧
       trace c2 = trace c1 ++ [ EvPrint (LogIngestError (KeyError key));
                                EvRollback;
                                EvSleep POLL_SECONDS ]).
Proof.
  intros Hfetch Hfs Ht Hin Hp.
  destruct (build_rows_missing_usd data
              (sym_to_id ((λ a, (a_id a, a_symbol a)) <$> assets (pending c)))
              (now w) [] cg_id payload Hin Hp) as [key Hrows].
  assert (ingest_once w c =
            (Raise (KeyError key),
             log_event EvSelectAssets
               (log_event (EvHttpGet "bitcoin,ethereum") c))) as Hrun.
  { unfold ingest_once. unfold mbind at 1, M_bind at 1.
    pose proof (fetch_prices_state (net w) c) as Hst.
    destruct (fetch_prices (net w) c) as [r c1]. simpl in Hfetch, Hst.
    subst r c1. rewrite Hfs. unfold mbind at 1, M_bind at 1.
    rewrite get_asset_id_map_ok by done.
    unfold mbind at 1, M_bind at 1. unfold lift. simpl pending.
    by rewrite Hrows. }
  eexists key, _. split; [exact Hrun|].
  split; [reflexivity|]. split; [simpl; by rewrite <- app_assoc|].
  split; [by apply (loop_body_raise_same_committed _ _ _ _ Hrun)|].
  intros Hsig Hrb.
  destruct (loop_body_raise_spec _ _ _ _ Hsig Hrun (or_intror Hrb))
    as (c2 & Hbody & Hc & Hpend & Htr & _ & _).
  exists c2. simpl in *. done.
Qed.

Lemma missing_price_raises_before_write_witness :
  ∃ c2, loop_body missing_price_cycle running_store = (Ok tt, c2) ∧
        committed c2 = committed running_store.
Proof.
  assert ("assets" ∈ tables (pending running_store)) as Ht by decide_closed.
  assert (("bitcoin", [("eur", (61000 # 1)%Q)]) ∈
            [("bitcoin", [("eur", (61000 # 1)%Q)])]) as Hin by decide_closed.
  assert ("usd" ∉ [("eur", (61000 # 1)%Q)].*1) as Hp by decide_closed.
  destruct (missing_price_raises_before_write missing_price_cycle
              running_store _ "bitcoin" _ eq_refl eq_refl Ht Hin Hp)
    as (key & c1 & _ & _ & _ & _ & Hgo).
  destruct (Hgo eq_refl eq_refl) as (c2 & Hbody & Hc & _).
  exists c2. split; [exact Hbody | exact Hc].
Defined.

(** ** Seeding *)

Lemma seeds_refl c : seeds c c.
Proof. by repeat split. Qed.

Lemma seeds_trans c c1 c2 : seeds c c1 → seeds c1 c2 → seeds c c2.
Proof.
  intros (C1 & K1 & T1 & U1 & A1 & S1) (C2 & K2 & T2 & U2 & A2 & S2).
  unfold seeds. split_and!; try congruence; by etrans.
Qed.

Lemma insert_user_post name c c1 :
  insert_user name c = (Ok tt, c1) →
  "users" ∈ tables (pending c) ∧ seeds c c1 ∧
  assets (pending c1) = assets (pending c) ∧
  (length (users (pending c1)) ≤ length (users (pending c)) + 1)%nat.
Proof.
  unfold insert_user, require_table. munfold.
  case_bool_decide as Ht; simpl; [|done].
  case_bool_decide; intros [= <-]; simpl;
    (split; [done|]); unfold seeds; simpl.
  - split_and!; try done; lia.
  - split_and!; try done; [by apply prefix_app_r|].
    rewrite length_app. simpl. lia.
Qed.

Lemma insert_user_ok name c :
  "users" ∈ tables (pending c) → ∃ c1, insert_user name c = (Ok tt, c1).
Proof.
  intros Ht. unfold insert_user, require_table. munfold.
  rewrite (bool_decide_eq_true_2 _ Ht). simpl.
  case_bool_decide; eauto.
Qed.

Lemma insert_asset_post symbol name c c1 :
  insert_asset symbol name c = (Ok tt, c1) →
  "assets" ∈ tables (pending c) ∧
  ("assets", "assets_symbol_key") ∈ indexes (pending c) ∧
  symbol ∈ a_symbol <$> assets (pending c1) ∧
  seeds c c1 ∧ users (pending c1) = users (pending c).
Proof.
  unfold insert_asset, require_table. munfold.
  case_bool_decide as Ht; simpl; [|done].
  case_bool_decide as Hi; simpl; [|done].
  case_bool_decide as Hs; simpl.
  - intros [= <-]. unfold seeds. simpl. split_and!; done.
  - case_bool_decide; [done|]. intros [= <-]. unfold seeds. simpl.
    split_and!; try done; [|by apply prefix_app_r].
    rewrite fmap_app. apply elem_of_app. right. by left.
Qed.

(** An asset whose symbol is there is not inserted again. *)
Lemma insert_asset_present symbol name c :
  "assets" ∈ tables (pending c) →
  ("assets", "assets_symbol_key") ∈ indexes (pending c) →
  symbol ∈ a_symbol <$> assets (pending c) →
  ∃ c1, insert_asset symbol name c = (Ok tt, c1) ∧
        pending c1 = pending c ∧ committed c1 = committed c ∧
        transactions_id_seq c1 = transactions_id_seq c.
Proof.
  intros Ht Hi Hs. unfold insert_asset, require_table. munfold.
  rewrite (bool_decide_eq_true_2 _ Ht). simpl.
  rewrite (bool_decide_eq_true_2 _ Hi). simpl.
  rewrite (bool_decide_eq_true_2 _ Hs). eauto.
Qed.

Lemma seeds_symbols c c1 s :
  seeds c c1 → s ∈ a_symbol <$> assets (pending c) →
  s ∈ a_symbol <$> assets (pending c1).
Proof.
  intros (_ & _ & _ & _ & [more ->] & _) Hs.
  rewrite fmap_app. apply elem_of_app. by left.
Qed.

Lemma insert_assets_post (items : list (string * (string * string))) c c1 :
  for_each (λ '(_, (symbol, name)), insert_asset symbol name) items c
    = (Ok tt, c1) →
  seeds c c1 ∧ users (pending c1) = users (pending c) ∧
  (items ≠ [] → "assets" ∈ tables (pending c) ∧
                ("assets", "assets_symbol_key") ∈ indexes (pending c)) ∧
  ∀ cg sym name, (cg, (sym, name)) ∈ items →
                 sym ∈ a_symbol <$> assets (pending c1).
Proof.
  revert c. induction items as [|[cg [sym name]] items IH]; intros c; simpl.
  - intros [= <-]. split; [apply seeds_refl|]. split; [done|].
    split; [done|]. intros ??? H. by apply elem_of_nil in H.
  - intros H. apply bind_ok_inv in H as ([] & s1 & H1 & H2).
    apply insert_asset_post in H1 as (Ht & Hi & Hs & G1 & U1).
    apply IH in H2 as (G2 & U2 & _ & Hall).
    split; [by eapply seeds_trans|]. split; [congruence|].
    split; [done|].
    intros cg' sym' name' Hin.
    apply elem_of_cons in Hin as [[= -> -> ->]|Hin]; [|by eapply Hall].
    by apply (seeds_symbols s1).
Qed.

Lemma insert_assets_present (items : list (string * (string * string))) c :
  "assets" ∈ tables (pending c) →
  ("assets", "assets_symbol_key") ∈ indexes (pending c) →
  (∀ cg sym name, (cg, (sym, name)) ∈ items →
                  sym ∈ a_symbol <$> assets (pending c)) →
  ∃ c1, for_each (λ '(_, (symbol, name)), insert_asset symbol name) items c
          = (Ok tt, c1) ∧
        pending c1 = pending c ∧ committed c1 = committed c ∧
        transactions_id_seq c1 = transactions_id_seq c.
Proof.
  intros Ht Hi. revert c Ht Hi.
  induction items as [|[cg [sym name]] items IH]; intros c Ht Hi Hall.
  - exists c. done.
  - destruct (insert_asset_present sym name c Ht Hi)
      as (s1 & H1 & P1 & C1 & S1).
    { apply (Hall cg sym name). by left. }
    destruct (IH s1) as (c1 & H2 & P2 & C2 & S2).
    + by rewrite P1.
    + by rewrite P1.
    + intros cg' sym' name' Hin. rewrite P1.
      apply (Hall cg' sym' name'). by right.
    + exists c1. cbn [for_each]. unfold mbind, M_bind. rewrite H1.
      split; [exact H2|]. split_and!; congruence.
Qed.

(** X8.  A seeding that returns has put a row for every symbol of [ASSETS]
    into [assets] and has left the observations alone; a second seeding
    right after it returns too and leaves [assets] and the observations
    exactly as they are (while [users] may get one more row). *)
Theorem seed_assets_idempotent (c c1 : conn) :
  seed_reference_data c = (Ok tt, c1) →
  (∀ cg sym name, (cg, (sym, name)) ∈ ASSETS →
                  sym ∈ a_symbol <$> assets (committed c1)) ∧
  transactions (committed c1) = transactions (pending c) ∧
  ∃ c2,
    seed_reference_data c1 = (Ok tt, c2) ∧
    assets (committed c2) = assets (committed c1) ∧
    transactions (committed c2) = transactions (committed c1) ∧
    users (committed c1) `prefix_of` users (committed c2) ∧
    (length (users (committed c2)) ≤ length (users (committed c1)) + 1)%nat.
Proof.
  unfold seed_reference_data. intros H.
  apply bind_ok_inv in H as ([] & s1 & H1 & H).
  apply bind_ok_inv in H as ([] & s2 & H2 & H3).
  apply insert_user_post in H1 as (Htu & G1 & _ & _).
  apply insert_assets_post in H2 as (G2 & _ & Hcat & Hall).
  destruct Hcat as [Hta Hti]; [done|].
  unfold commit, mbind, M_bind, emit, modify in H3. simpl in H3.
  injection H3 as <-. simpl committed.
  pose proof (seeds_trans _ _ _ G1 G2) as (_ & K & T & _ & _ & _).
  split; [exact Hall|]. split; [exact T|].
  injection K as Kt Ki Kh.
  destruct G1 as (_ & K1 & _). injection K1 as Kt1 Ki1 Kh1.
  set (c1 := mkConn (pending s2) (pending s2) (users_id_seq s2)
                    (assets_id_seq s2) (transactions_id_seq s2)
                    (trace s2 ++ [EvCommit])).
  destruct (insert_user_ok "Sarah" c1) as [t1 R1].
  { simpl. by rewrite Kt. }
  pose proof (insert_user_post _ _ _ R1) as (_ & (C1 & K' & T' & U' & _) & A' & L').
  injection K' as Kt' Ki' Kh'. simpl in Kt', Ki', C1, T', U', A', L'.
  destruct (insert_assets_present ASSETS t1) as (t2 & R2 & P2 & C2 & _).
  { rewrite Kt', Kt. by rewrite Kt1 in Hta. }
  { rewrite Ki', Ki. by rewrite Ki1 in Hti. }
  { intros cg sym name Hin. rewrite A'. by eapply Hall. }
  eexists. rewrite (bind_ok_intro _ _ _ _ _ R1).
  rewrite (bind_ok_intro _ _ _ _ _ R2).
  split; [reflexivity|]. simpl. rewrite P2.
  split; [by rewrite A'|]. split; [by rewrite T'|].
  split; [exact U' | exact L'].
Qed.

Lemma seed_assets_idempotent_witness :
  ∃ c1 c2,
    seed_reference_data (ensure_schema fresh).2 = (Ok tt, c1) ∧
    seed_reference_data c1 = (Ok tt, c2) ∧
    assets (committed c2) = assets (committed c1).
Proof.
  assert (seed_reference_data (ensure_schema fresh).2
          = (Ok tt, (seed_reference_data (ensure_schema fresh).2).2)) as Hrun
    by (vm_compute; reflexivity).
  destruct (seed_assets_idempotent _ _ Hrun) as (_ & _ & c2 & H2 & Ha & _).
  eexists _, c2. split; [exact Hrun|]. split; [exact H2 | exact Ha].
Defined.

(** X9.  The seeding needs the unique index the bootstrap makes: on a store
    that has the tables but not the index on [assets(symbol)], the first
    asset insert raises (its [ON CONFLICT (symbol)] has no constraint to
    refer to), no asset row is written and nothing is committed. *)
Theorem seed_without_unique_index_raises (c : conn) :
  "users" ∈ tables (pending c) →
  "assets" ∈ tables (pending c) →
  ("assets", "assets_symbol_key") ∉ indexes (pending c) →
  ∃ c1,
    seed_reference_data c = (Raise (DatabaseError InvalidOnConflict), c1) ∧
    committed c1 = committed c ∧
    assets (pending c1) = assets (pending c).
Proof.
  intros Htu Hta Hi.
  destruct (insert_user_ok "Sarah" c Htu) as [s1 H1].
  pose proof (insert_user_post _ _ _ H1) as (_ & (C1 & K1 & _) & A1 & _).
  injection K1 as Kt Ki Kh.
  unfold seed_reference_data. rewrite (bind_ok_intro _ _ _ _ _ H1).
  cbn [ASSETS for_each]. unfold mbind at 1 2, M_bind at 1 2.
  unfold insert_asset, require_table.
  unfold mbind, M_bind, mret, M_ret, get_pending, raise. simpl.
  rewrite Kt, (bool_decide_eq_true_2 _ Hta). simpl.
  rewrite Ki, (bool_decide_eq_false_2 _ Hi).
  eexists. split; [reflexivity|]. done.
Qed.

Lemma seed_without_unique_index_raises_witness :
  ∃ c1,
    seed_reference_data unindexed_store
      = (Raise (DatabaseError InvalidOnConflict), c1) ∧
    committed c1 = committed unindexed_store.
Proof.
  destruct (seed_without_unique_index_raises unindexed_store)
    as (c1 & Hrun & Hc & _); try decide_closed.
  exists c1. split; [exact Hrun | exact Hc].
Defined.

(** ** What the script never does *)

#[local] Instance refs_extend_atomic : Atomic refs_extend.
Proof.
  split; [split|..]; unfold refs_extend; simpl; try done.
  - intros x y z Hxy Hyz H.
    destruct (Hxy H) as (Hy & U1 & A1). destruct (Hyz Hy) as (Hz & U2 & A2).
    split; [done|]. split; by etrans.
  - intros c u [Hu Ha]. split; [|done]. split; [by apply prefix_app_r | done].
  - intros c a _ [Hu Ha]. split; [|done]. split; [done | by apply prefix_app_r].
Qed.

#[local] Instance refs_extend_cataloguing : Cataloguing refs_extend.
Proof. by intros c ts ix hs H. Qed.

#[local] Instance refs_extend_committing : Committing refs_extend.
Proof. intros c [Hu Ha]. simpl. done. Qed.

(** X10.  Actor and asset rows are append-only too: over any sequence of
    operations of the system, the committed rows of [users] and of [assets]
    of a state on the way are prefixes of those of every later state.  No
    row is changed, deleted or moved. *)
Theorem reference_rows_append_only (c : conn) (os1 os2 : list op) :
  users (committed c) `prefix_of` users (pending c) ∧
  assets (committed c) `prefix_of` assets (pending c) →
  users (committed (run_ops os1 c))
    `prefix_of` users (committed (run_ops (os1 ++ os2) c)) ∧
  assets (committed (run_ops os1 c))
    `prefix_of` assets (committed (run_ops (os1 ++ os2) c)).
Proof.
  intros H. rewrite run_ops_app.
  pose proof (respects_ensure_schema refs_extend) as Hs.
  destruct (respects_run_ops refs_extend os1 c Hs H) as [H1 _].
  by destruct (respects_run_ops refs_extend os2 (run_ops os1 c) Hs H1).
Qed.

Lemma reference_rows_append_only_witness :
  users (committed (run_ops [OpMain true [example_cycle]] fresh))
    `prefix_of`
  users (committed (run_ops ([OpMain true [example_cycle]] ++
                             [ OpMain true [timeout_cycle];
                               OpSeedReferenceData;
                               OpRollback false ]) fresh)) ∧
  assets (committed (run_ops [OpMain true [example_cycle]] fresh))
    `prefix_of`
  assets (committed (run_ops ([OpMain true [example_cycle]] ++
                              [ OpMain true [timeout_cycle];
                                OpSeedReferenceData;
                                OpRollback false ]) fresh)).
Proof.
  apply reference_rows_append_only. split; by exists [].
Defined.

#[local] Instance keeps_catalog_atomic : Atomic keeps_catalog.
Proof.
  split; [split|..]; unfold keeps_catalog, catalog; simpl; try done.
  intros x y z Hxy Hyz H.
  destruct (Hxy H) as [Hy E1]. destruct (Hyz Hy) as [Hz E2].
  split; [done | congruence].
Qed.

#[local] Instance keeps_catalog_committing : Committing keeps_catalog.
Proof. intros c H. simpl. done. Qed.

(** X11.  Only the bootstrap touches the schema: on a connection whose open
    transaction has the catalog of the store, the seeding and any number of
    passes of the loop leave the tables, indexes and hypertables of the
    store exactly as they are. *)
Theorem only_bootstrap_changes_catalog (c : conn) (ws : list cycle_input) :
  catalog (pending c) = catalog (committed c) →
  catalog (committed (seed_reference_data c).2) = catalog (committed c) ∧
  catalog (committed (while_true ws c).2) = catalog (committed c).
Proof.
  intros H. split.
  - by destruct (respects_seed_reference_data keeps_catalog c H).
  - by destruct (respects_while_true keeps_catalog ws c H).
Qed.

Lemma only_bootstrap_changes_catalog_witness :
  catalog (committed (seed_reference_data seeded_store).2)
    = catalog (committed seeded_store) ∧
  catalog (committed
             (while_true [example_cycle; timeout_cycle; insert_failure_cycle]
                         seeded_store).2)
    = catalog (committed seeded_store).
Proof.
  apply only_bootstrap_changes_catalog. vm_compute. reflexivity.
Defined.

(** ** A seeded store stays seeded *)

#[local] Instance keeps_static_atomic : Atomic keeps_static.
Proof.
  split; [split|..]; unfold keeps_static, static_ok; simpl; try done.
  - by intros c H.
  - intros x y z Hxy Hyz H. auto.
  - intros c u [Hc (Ha & Ht & Hn & Hu)]. split; [done|]. split_and!; try done.
    rewrite fmap_app. apply elem_of_app. by left.
  - intros c a Hfresh [Hc (Ha & Ht & Hn & Hu)]. split; [done|].
    split_and!; try done. rewrite fmap_app. by apply NoDup_snoc.
  - by intros c [Hc Hp].
Qed.

#[local] Instance keeps_static_committing : Committing keeps_static.
Proof. intros c [Hc Hp]. done. Qed.

Lemma bound_mono (xs : list tx_row) (z z' : Z) :
  z ≤ z' → Forall (λ r, t_id r ≤ z) xs → Forall (λ r, t_id r ≤ z') xs.
Proof.
  intros Hle H. eapply Forall_impl; [exact H|]. simpl. intros x Hx. lia.
Qed.

Lemma seq_advances_refl c : seq_advances c c.
Proof. split; [lia | done]. Qed.

Lemma seq_advances_trans c c1 c2 :
  seq_advances c c1 → seq_advances c1 c2 → seq_advances c c2.
Proof. intros [L1 B1] [L2 B2]. split; [lia | auto]. Qed.

Lemma seq_advances_bind {A B} (m : M A) (k : A → M B) :
  (∀ c, seq_advances c (m c).2) → (∀ a c, seq_advances c (k a c).2) →
  ∀ c, seq_advances c ((m ≫= k) c).2.
Proof.
  intros Hm Hk c. unfold mbind, M_bind.
  specialize (Hm c). destruct (m c) as [[a|e] c1]; simpl in *; [|done].
  eapply seq_advances_trans; [exact Hm | apply Hk].
Qed.

Lemma seq_advances_try_except {A} (body : M A) (handler : exn → M A) :
  (∀ c, seq_advances c (body c).2) → (∀ e c, seq_advances c (handler e c).2) →
  ∀ c, seq_advances c (try_except body handler c).2.
Proof.
  intros Hb Hh c. unfold try_except.
  specialize (Hb c). destruct (body c) as [[a|e] c1]; simpl in *; [done|].
  eapply seq_advances_trans; [exact Hb | apply Hh].
Qed.

Lemma seq_advances_emit e c : seq_advances c (emit e c).2.
Proof. split; simpl; [lia | done]. Qed.

Lemma seq_advances_raise {A} e c : seq_advances c (@raise A e c).2.
Proof. apply seq_advances_refl. Qed.

Lemma seq_advances_checkpoint sig s c : seq_advances c (checkpoint sig s c).2.
Proof. unfold checkpoint. case_bool_decide; apply seq_advances_refl. Qed.

Lemma seq_advances_commit fail c : seq_advances c (commit fail c).2.
Proof.
  unfold commit. munfold. destruct fail; simpl; (split; simpl; [lia|]).
  - done.
  - unfold seq_bound, committed_bound. simpl. by intros [H _].
Qed.

Lemma seq_advances_rollback fail c : seq_advances c (rollback fail c).2.
Proof.
  unfold rollback. munfold. destruct fail; simpl; (split; simpl; [lia|]);
    unfold seq_bound, committed_bound; simpl; by intros [_ H].
Qed.

Lemma seq_advances_time_sleep s i c : seq_advances c (time_sleep s i c).2.
Proof. rewrite time_sleep_eval. split; simpl; [lia | done]. Qed.

Lemma insert_tx_rows_bound d rows acc c r c1 :
  insert_tx_rows d rows acc c = (r, c1) →
  transactions_id_seq c ≤ transactions_id_seq c1 ∧
  c1 = set_transactions_id_seq (transactions_id_seq c1) c ∧
  (∀ new, r = Ok new →
          Forall (λ x, t_id x ≤ transactions_id_seq c) acc →
          Forall (λ x, t_id x ≤ transactions_id_seq c1) new).
Proof.
  revert acc c. induction rows as [|[[[[uid aid] amount] price] ts] rows IH];
    intros acc c; simpl.
  - munfold. intros [= <- <-]. split; [lia|]. split; [by destruct c|].
    by intros new [= <-].
  - munfold.
    repeat (case_bool_decide; simpl);
      try (intros [= <- <-]; simpl; split; [lia|]; split; [done | discriminate]).
    intros Hrec. apply IH in Hrec as (Hle & Hst & Hnew). simpl in *.
    split; [lia|]. split; [by rewrite Hst|].
    intros new Hr Hacc. apply Hnew; [done|].
    apply Forall_app. split.
    + eapply Forall_impl; [exact Hacc|]. simpl. intros x Hx. lia.
    + apply Forall_singleton. simpl. lia.
Qed.

Lemma seq_advances_insert_transactions fail rows c :
  seq_advances c (insert_transactions fail rows c).2.
Proof.
  unfold insert_transactions, require_table. munfold.
  destruct fail; simpl; [apply (seq_advances_emit (EvInsertTransactions rows))|].
  case_bool_decide; simpl; [|apply (seq_advances_emit (EvInsertTransactions rows))].
  match goal with
  | |- context [insert_tx_rows ?d ?rs ?acc ?c0] =>
      destruct (insert_tx_rows d rs acc c0) as [r c1] eqn:Hins
  end.
  apply insert_tx_rows_bound in Hins as (Hle & Hst & Hnew). simpl in *.
  rewrite Hst. destruct r as [new|e]; simpl.
  - split; simpl; [done|]. unfold seq_bound, committed_bound. simpl.
    intros [Hb Hc]. split; [|by eapply bound_mono].
    apply Forall_app. split; [by eapply bound_mono|].
    apply (Hnew new eq_refl). constructor.
  - split; simpl; [done|]. unfold seq_bound, committed_bound. simpl.
    intros [Hb Hc]. split; by eapply bound_mono.
Qed.

Lemma seq_advances_for_each {A} (body : A → M unit) xs :
  (∀ x c, seq_advances c (body x c).2) →
  ∀ c, seq_advances c (for_each body xs c).2.
Proof.
  intros Hb. induction xs as [|x xs IH]; simpl.
  - intros c. apply seq_advances_refl.
  - apply seq_advances_bind; [apply Hb | intros _; apply IH].
Qed.

Lemma seq_advances_get_asset_id_map fail c :
  seq_advances c (get_asset_id_map fail c).2.
Proof.
  unfold get_asset_id_map, require_table. munfold.
  destruct fail; simpl; [split; simpl; [lia | done]|].
  case_bool_decide; split; simpl; (lia || done).
Qed.

Lemma seq_advances_ingest_once_sigint w c :
  seq_advances c (ingest_once_sigint w c).2.
Proof.
  revert c. unfold ingest_once_sigint.
  apply seq_advances_bind.
  { intros c. case_bool_decide.
    - munfold. split; simpl; [lia | done].
    - rewrite fetch_prices_state. split; simpl; [lia | done]. }
  intros data.
  apply seq_advances_bind; [apply seq_advances_checkpoint|]. intros _.
  apply seq_advances_bind; [apply seq_advances_get_asset_id_map|]. intros m.
  apply seq_advances_bind; [apply seq_advances_checkpoint|]. intros _.
  apply seq_advances_bind; [intros c; apply seq_advances_refl|]. intros rows.
  apply seq_advances_bind; [apply seq_advances_checkpoint|]. intros _.
  apply seq_advances_bind.
  { apply seq_advances_for_each. intros page c.
    apply seq_advances_insert_transactions. }
  intros _.
  apply seq_advances_bind; [apply seq_advances_checkpoint|]. intros _.
  apply seq_advances_bind; [apply seq_advances_commit|]. intros _.
  apply seq_advances_bind; [apply seq_advances_checkpoint|]. intros _.
  intros c. apply (seq_advances_emit _ c).
Qed.

Lemma seq_advances_handler w e c : seq_advances c (handler w e c).2.
Proof.
  revert c. unfold handler. destruct (isinstance_HTTPError e).
  { apply seq_advances_bind; [apply seq_advances_checkpoint|].
    intros _ c. apply (seq_advances_emit _ c). }
  destruct (isinstance_Exception e); [|apply seq_advances_raise].
  apply seq_advances_bind; [apply seq_advances_checkpoint|]. intros _.
  apply seq_advances_bind; [intros c; apply (seq_advances_emit _ c)|].
  intros _. apply seq_advances_rollback.
Qed.

Lemma seq_advances_loop_body w c : seq_advances c (loop_body w c).2.
Proof.
  revert c. unfold loop_body.
  apply seq_advances_bind; [|intros _; apply seq_advances_time_sleep].
  apply seq_advances_try_except;
    [apply seq_advances_ingest_once_sigint | intros e; apply seq_advances_handler].
Qed.

Lemma ingest_once_ok_quiescent w c c1 :
  ingest_once w c = (Ok tt, c1) → pending c1 = committed c1.
Proof.
  unfold ingest_once. intros H.
  apply bind_ok_inv in H as (data & s1 & _ & H).
  apply bind_ok_inv in H as (m & s2 & _ & H).
  apply bind_ok_inv in H as (rows & s3 & _ & H).
  apply bind_ok_inv in H as ([] & s4 & _ & H).
  apply bind_ok_inv in H as ([] & s5 & Hc & H).
  unfold print, emit, modify in H. injection H as <-. simpl.
  unfold commit in Hc. munfold.
  destruct (fail_commit w); [done|]. by injection Hc as <-.
Qed.

Lemma seeded_store_seeded c : seeded c ↔ quiescent c ∧ store_seeded c.
Proof.
  unfold seeded, store_seeded, static_ok, seq_bound, committed_bound, quiescent.
  split.
  - intros (Hq & ? & ? & ? & ? & ?). rewrite Hq. done.
  - intros (Hq & ((? & ? & ? & ?) & _) & _ & ?). done.
Qed.

(** One pass of the loop keeps what a seeded store has, however it ends ... *)
Lemma loop_body_store_seeded w c :
  store_seeded c → store_seeded (loop_body w c).2.
Proof.
  intros (Hs & Hb). split.
  - by apply (respects_loop_body keeps_static w c).
  - by apply seq_advances_loop_body.
Qed.

(** ... and leaves nothing pending, unless Ctrl+C ended it before its
    sleep. *)
Lemma loop_body_quiescent w c :
  sigint w = None → quiescent c → quiescent (loop_body w c).2.
Proof.
  unfold quiescent. intros Hsig Hq. rewrite loop_body_eval.
  rewrite ingest_once_sigint_calm by done.
  destruct (ingest_once w c) as [[[]|e] c1] eqn:Hrun.
  - by apply ingest_once_ok_quiescent in Hrun.
  - assert (isinstance_Exception e = true) as ->.
    { apply (ingest_once_raises_exception w c). by rewrite Hrun. }
    rewrite Hsig. rewrite bool_decide_eq_false_2 by done.
    destruct (isinstance_HTTPError e) eqn:Hhttp.
    + destruct (ingest_once_raise_cases w c e) as [Hf|[_ Hf]];
        [by rewrite Hrun| |by destruct e].
      apply ingest_once_fetch_raise in Hf. rewrite Hf in Hrun.
      injection Hrun as <-. done.
    + by destruct (fail_rollback w).
Qed.

Lemma while_true_store_seeded ws c :
  store_seeded c → store_seeded (while_true ws c).2.
Proof.
  revert c. induction ws as [|w ws IH]; intros c Hc; [done|].
  simpl. unfold mbind, M_bind.
  pose proof (loop_body_store_seeded w c Hc) as H1.
  destruct (loop_body w c) as [[[]|e] c1]; simpl in *; auto.
Qed.

Lemma while_true_quiescent ws c :
  Forall (λ w, sigint w = None) ws → quiescent c →
  quiescent (while_true ws c).2.
Proof.
  intros Hws. revert c. induction Hws as [|w ws Hw _ IH]; intros c Hc; [done|].
  simpl. unfold mbind, M_bind.
  pose proof (loop_body_quiescent w c Hw Hc) as H1.
  destruct (loop_body w c) as [[[]|e] c1]; simpl in *; auto.
Qed.

Lemma store_seeded_new_connection c :
  store_seeded c → seeded (set_pending (committed c) c).
Proof.
  intros ((Hs & _) & _ & Hb). apply seeded_store_seeded.
  split; [done|]. unfold store_seeded, seq_bound, committed_bound. simpl.
  done.
Qed.

Lemma while_true_seeded ws c :
  Forall (λ w, sigint w = None) ws → seeded c → seeded (while_true ws c).2.
Proof.
  intros Hws Hc. apply seeded_store_seeded in Hc as [Hq Hs].
  apply seeded_store_seeded.
  split; [by apply while_true_quiescent | by apply while_true_store_seeded].
Qed.

(** X12.  A seeded store stays seeded through any passes of the loop,
    whatever fails in them: tables, unique symbols and actor 1 are kept,
    nothing is left pending between passes, and the sequence stays ahead of
    the ids.  So a good cycle appends its rows at whatever pass it comes.
    Only Ctrl+C before the sleep of a pass can leave the loop with something
    pending; what is committed then is a seeded store all the same, for the
    next connection to find. *)
Theorem loop_keeps_seeded (ws : list cycle_input) (c : conn) :
  seeded c →
  (Forall (λ w, sigint w = None) ws → seeded (while_true ws c).2) ∧
  seeded (set_pending (committed (while_true ws c).2) (while_true ws c).2).
Proof.
  intros Hc. split; [intros Hws; by apply while_true_seeded|].
  apply store_seeded_new_connection, while_true_store_seeded.
  by apply seeded_store_seeded in Hc as [_ Hs].
Qed.

Lemma loop_keeps_seeded_witness :
  seeded (while_true [timeout_cycle; insert_failure_cycle; example_cycle;
                      unknown_asset_cycle; commit_failure_cycle;
                      lost_connection_cycle; example_cycle]
                     seeded_store).2.
Proof.
  assert (seeded seeded_store) as Hc.
  { repeat split; try reflexivity; decide_closed. }
  destruct (loop_keeps_seeded
              [timeout_cycle; insert_failure_cycle; example_cycle;
               unknown_asset_cycle; commit_failure_cycle;
               lost_connection_cycle; example_cycle] seeded_store Hc)
    as [Hcalm _].
  apply Hcalm. repeat constructor.
Defined.

(** ** Starting again on a store in use *)

Lemma set_pending_quiescent c : pending c = committed c → set_pending (committed c) c = c.
Proof. intros H. destruct c. simpl in *. by subst. Qed.

(** The bootstrap and the seeding on a restartable store. *)
Lemma startup_restartable c :
  restartable c →
  ∃ c0,
    startup c = (Ok tt, c0) ∧ restartable c0 ∧
    transactions (committed c0) = transactions (committed c) ∧
    assets (committed c0) = assets (committed c) ∧
    users (committed c) `prefix_of` users (committed c0).
Proof.
  intros ((Hq & Hta & Htt & Hnd & Hactor & Hseq) & Hready & Hall).
  unfold quiescent in Hq. unfold startup.
  rewrite (set_pending_quiescent _ Hq).
  assert (schema_ready (pending c)) as Hready' by by rewrite Hq.
  rewrite (bind_ok_intro _ _ _ _ _ (ensure_schema_ready c Hready')).
  set (s1 := mkConn (pending c) (pending c) (users_id_seq c)
                    (assets_id_seq c) (transactions_id_seq c)
                    (trace c ++ [EvCommit])).
  destruct Hready' as (Tu & Ta & Tt & Th & Ti).
  destruct (insert_user_ok "Sarah" s1 Tu) as [t1 R1].
  pose proof (insert_user_post _ _ _ R1)
    as (_ & (C1 & K1 & T1 & U1 & _ & S1) & A1 & _).
  injection K1 as Kt Ki Kh. simpl in Kt, Ki, Kh, C1, T1, U1, A1, S1.
  destruct (insert_assets_present ASSETS t1) as (t2 & R2 & P2 & C2 & S2).
  { by rewrite Kt. }
  { by rewrite Ki. }
  { intros cg sym name Hin. rewrite A1, Hq. by eapply Hall. }
  unfold seed_reference_data.
  rewrite (bind_ok_intro _ _ _ _ _ R1), (bind_ok_intro _ _ _ _ _ R2).
  eexists. split; [reflexivity|]. simpl.
  unfold restartable, seeded, quiescent, schema_ready. simpl.
  rewrite ?P2, ?Kt, ?Ki, ?Kh, ?T1, ?A1, ?S2, ?S1. rewrite Hq in *.
  split_and!; try done.
  destruct U1 as [more ->]. rewrite fmap_app. apply elem_of_app. by left.
Qed.

Lemma seeded_log_event e c : seeded c → seeded (log_event e c).
Proof. done. Qed.

Lemma store_seeded_close c : store_seeded c → store_seeded (close c).2.
Proof.
  intros ((Hs & _) & _ & Hb).
  unfold close, store_seeded, seq_bound, committed_bound. munfold. done.
Qed.

(** X13.  Starting the script again on a store it has used is safe.  On a
    restartable store the bootstrap and the seeding return and leave the
    observations and the asset rows exactly as they were.  Whatever happens
    in the cycles of the run and however it ends, every observation of
    before is kept in place and what is committed is a seeded store again.
    A run in which Ctrl+C never arrives and no rollback raises is still
    polling after any number of cycles, on a seeded store. *)
Theorem restart_keeps_store (ws : list cycle_input) (c : conn) :
  restartable c →
  ∃ c0,
    startup c = (Ok tt, c0) ∧
    transactions (committed c0) = transactions (committed c) ∧
    assets (committed c0) = assets (committed c) ∧
    transactions (committed c)
      `prefix_of` transactions (committed (main true ws c).2) ∧
    seeded (set_pending (committed (main true ws c).2) (main true ws c).2) ∧
    (Forall (λ w, interrupt w = false) ws → Forall undisturbed ws →
     ∃ c', main true ws c = (Polling, c') ∧ seeded c').
Proof.
  intros Hc.
  destruct (startup_restartable c Hc) as (c0 & Hstart & (Hs0 & _) & T0 & A0 & _).
  exists c0.
  split; [exact Hstart|]. split; [exact T0|]. split; [exact A0|].
  pose proof (seeded_log_event (EvPrint LogStarting) c0 Hs0) as Hs1.
  split; [|split].
  - assert (transactions (committed c) `prefix_of` transactions (pending c))
      as Hpend by (destruct Hc as ((-> & _) & _); done).
    by destruct (respects_main tx_extends true ws c
                   (respects_ensure_schema tx_extends) Hpend) as [_ Hpre].
  - apply store_seeded_new_connection.
    rewrite (main_startup_ok _ _ _ Hstart).
    apply seeded_store_seeded in Hs1 as [_ Hs1].
    pose proof (while_true_store_seeded ws _ Hs1) as Hs.
    destruct (while_true ws _) as [[[]|e] c1]; simpl in Hs; [done|].
    destruct e; simpl; by apply store_seeded_close.
  - intros Hws Hun. rewrite (main_startup_ok _ _ _ Hstart).
    pose proof (while_true_uninterrupted ws
                  (log_event (EvPrint LogStarting) c0) Hws Hun) as Hres.
    assert (Forall (λ w, sigint w = None) ws) as Hsig.
    { eapply Forall_impl; [exact Hun|]. by intros w [? _]. }
    pose proof (while_true_seeded ws _ Hsig Hs1) as Hseeded.
    destruct (while_true ws _) as [r c1]. simpl in *. subst r. eauto.
Qed.

Lemma restart_keeps_store_witness :
  restartable running_store ∧
  ∃ c', main true [timeout_cycle; example_cycle] running_store
          = (Polling, c') ∧
        seeded c' ∧
        transactions (committed running_store)
          `prefix_of` transactions (committed c').
Proof.
  assert (restartable running_store) as Hc.
  { split; [|split].
    - repeat split; try (vm_compute; reflexivity); decide_closed.
    - repeat split; decide_closed.
    - intros cg sym name Hin.
      apply elem_of_cons in Hin as [[= -> -> ->]|Hin]; [decide_closed|].
      apply elem_of_cons in Hin as [[= -> -> ->]|Hin]; [decide_closed|].
      by apply elem_of_nil in Hin. }
  split; [exact Hc|].
  destruct (restart_keeps_store [timeout_cycle; example_cycle] running_store Hc)
    as (c0 & _ & _ & _ & Hpre & _ & Hgo).
  destruct Hgo as (c' & Hmain & Hseeded); [repeat constructor..|].
  exists c'. split; [exact Hmain|]. split; [exact Hseeded|].
  rewrite Hmain in Hpre. exact Hpre.
Defined.

(** ** The shape of a pass *)

Lemma logs_store_events_refl c : logs_store_events c c.
Proof. exists []. by rewrite app_nil_r. Qed.

Lemma logs_store_events_trans c c1 c2 :
  logs_store_events c c1 → logs_store_events c1 c2 → logs_store_events c c2.
Proof.
  intros (m1 & E1 & F1) (m2 & E2 & F2). exists (m1 ++ m2).
  split; [by rewrite E2, E1, app_assoc | by apply Forall_app].
Qed.

Lemma logs_store_events_bind {A B} (m : M A) (k : A → M B) :
  (∀ c, logs_store_events c (m c).2) →
  (∀ a c, logs_store_events c (k a c).2) →
  ∀ c, logs_store_events c ((m ≫= k) c).2.
Proof.
  intros Hm Hk c. unfold mbind, M_bind.
  specialize (Hm c). destruct (m c) as [[a|e] c1]; simpl in *; [|done].
  eapply logs_store_events_trans; [exact Hm | apply Hk].
Qed.

Lemma logs_store_events_emit e c :
  store_event e → logs_store_events c (emit e c).2.
Proof. intros He. exists [e]. split; [done | by constructor]. Qed.

Lemma logs_store_events_for_each {A} (body : A → M unit) xs :
  (∀ x c, logs_store_events c (body x c).2) →
  ∀ c, logs_store_events c (for_each body xs c).2.
Proof.
  intros Hb. induction xs as [|x xs IH]; simpl.
  - intros c. apply logs_store_events_refl.
  - apply logs_store_events_bind; [apply Hb | intros _; apply IH].
Qed.

Lemma logs_store_events_insert_transactions fail rows c :
  logs_store_events c (insert_transactions fail rows c).2.
Proof.
  assert (logs_store_events c (emit (EvInsertTransactions rows) c).2) as He
    by by apply logs_store_events_emit.
  unfold insert_transactions, require_table. munfold.
  destruct fail; simpl; [exact He|].
  case_bool_decide; simpl; [|exact He].
  match goal with
  | |- context [insert_tx_rows ?d ?rs ?acc ?c0] =>
      destruct (insert_tx_rows d rs acc c0) as [r c1] eqn:Hins
  end.
  apply insert_tx_rows_bound in Hins as (_ & -> & _).
  destruct r; exact He.
Qed.

Lemma logs_store_events_checkpoint sig s c :
  logs_store_events c (checkpoint sig s c).2.
Proof. unfold checkpoint. case_bool_decide; apply logs_store_events_refl. Qed.

(** After its request, a cycle logs store calls and printed lines only,
    wherever it ends. *)
Lemma ingest_once_sigint_trace w c :
  ∃ more, trace (ingest_once_sigint w c).2 =
            trace c ++ EvHttpGet "bitcoin,ethereum" :: more ∧
          Forall store_event more.
Proof.
  assert (∀ data c1, logs_store_events c1
            ((checkpoint (sigint w) AtSelect ;;
              asset_id_by_symbol ← get_asset_id_map (fail_select w);
              checkpoint (sigint w) AtRows ;;
              rows ← lift (build_rows data asset_id_by_symbol (now w) []);
              checkpoint (sigint w) AtInsert ;;
              execute_values (fail_insert w) rows ;;
              checkpoint (sigint w) AtCommit ;;
              commit (fail_commit w) ;;
              checkpoint (sigint w) AtPrint ;;
              print (LogInserted (now w) (length rows))) c1).2) as Hrest.
  { intros data.
    apply logs_store_events_bind; [apply logs_store_events_checkpoint|].
    intros _. apply logs_store_events_bind.
    { intros c1. unfold get_asset_id_map, require_table.
      assert (logs_store_events c1 (emit EvSelectAssets c1).2) as He
        by by apply logs_store_events_emit.
      munfold. destruct (fail_select w); simpl; [exact He|].
      case_bool_decide; exact He. }
    intros m.
    apply logs_store_events_bind; [apply logs_store_events_checkpoint|].
    intros _. apply logs_store_events_bind.
    { intros c1. apply logs_store_events_refl. }
    intros rows.
    apply logs_store_events_bind; [apply logs_store_events_checkpoint|].
    intros _. apply logs_store_events_bind.
    { apply logs_store_events_for_each. intros page c1.
      apply logs_store_events_insert_transactions. }
    intros _.
    apply logs_store_events_bind; [apply logs_store_events_checkpoint|].
    intros _. apply logs_store_events_bind.
    { intros c1. unfold commit.
      assert (logs_store_events c1 (emit EvCommit c1).2) as He
        by by apply logs_store_events_emit.
      munfold. destruct (fail_commit w); exact He. }
    intros _.
    apply logs_store_events_bind; [apply logs_store_events_checkpoint|].
    intros _ c1. by apply logs_store_events_emit. }
  unfold ingest_once_sigint. unfold mbind at 1, M_bind at 1.
  case_bool_decide.
  { exists []. done. }
  pose proof (fetch_prices_state (net w) c) as Hst.
  destruct (fetch_prices (net w) c) as [[data|e] c1]; simpl in Hst; subst c1.
  - destruct (Hrest data (log_event (EvHttpGet "bitcoin,ethereum") c))
      as (more & E & F).
    exists more. rewrite E. simpl. by rewrite <- app_assoc.
  - exists []. done.
Qed.

Lemma loop_body_trace w c :
  ∃ mid,
    Forall store_event mid ∧
    (trace (loop_body w c).2 =
       trace c ++ [EvHttpGet "bitcoin,ethereum"] ++ mid ++
         [EvSleep POLL_SECONDS] ∨
     (trace (loop_body w c).2 =
        trace c ++ [EvHttpGet "bitcoin,ethereum"] ++ mid ∧
      (∃ e, (loop_body w c).1 = Raise e) ∧
      ¬ undisturbed w)).
Proof.
  destruct (ingest_once_sigint_trace w c) as (more & E & F).
  rewrite loop_body_eval.
  pose proof (ingest_once_sigint_raises w c) as Hr.
  destruct (ingest_once_sigint w c) as [[[]|e] c1]; simpl in E.
  { exists more. split; [done|]. left. simpl. rewrite E.
    by rewrite <- ?app_assoc. }
  destruct (Hr e eq_refl) as [[-> Hsig]| ->].
  { exists more. split; [done|]. right. simpl. rewrite E.
    split; [by rewrite <- ?app_assoc|]. split; [eauto|]. by intros [? _]. }
  case_bool_decide as Hh.
  { exists more. split; [done|]. right. simpl. rewrite E.
    split; [by rewrite <- ?app_assoc|]. split; [eauto|].
    intros [? _]. congruence. }
  destruct (isinstance_HTTPError e).
  { exists (more ++ [EvPrint (LogHttpError e)]).
    split; [apply Forall_app; by repeat constructor|].
    left. simpl. rewrite E. by rewrite <- ?app_assoc. }
  exists (more ++ [EvPrint (LogIngestError e); EvRollback]).
  split; [apply Forall_app; by repeat constructor|].
  destruct (fail_rollback w) eqn:Hrb.
  - right. simpl. rewrite E. split; [by rewrite <- ?app_assoc|].
    split; [eauto|]. intros [_ ?]. congruence.
  - left. simpl. rewrite E. by rewrite <- ?app_assoc.
Qed.

(** X14.  Every pass of the loop has the same frame: it starts with the one
    request for the ids of [ASSETS], then only calls the store and prints,
    and ends with the one sleep of [POLL_SECONDS].  The sleep is missing
    only when Ctrl+C arrived before it or the rollback raised, and the pass
    then ends the loop with an exception: a pass that hands over to the next
    has slept, whatever failed in it.  No pass asks twice or closes the
    connection. *)
Theorem loop_body_frame (w : cycle_input) (c : conn) :
  ∃ mid,
    Forall store_event mid ∧
    (trace (loop_body w c).2 =
       trace c ++ [EvHttpGet "bitcoin,ethereum"] ++ mid ++
         [EvSleep POLL_SECONDS] ∨
     (trace (loop_body w c).2 =
        trace c ++ [EvHttpGet "bitcoin,ethereum"] ++ mid ∧
      (∃ e, (loop_body w c).1 = Raise e) ∧
      ¬ undisturbed w)).
Proof. apply loop_body_trace. Qed.

(** X16.  Ctrl+C does not tear a cycle.  Wherever it arrives in a pass, and
    whatever else fails there, the pass has committed either nothing or
    exactly what the cycle commits when it runs to its end: never a part of
    its rows. *)
Theorem ctrl_c_commits_all_or_nothing (w : cycle_input) (c : conn) :
  committed (loop_body w c).2 = committed c ∨
  committed (loop_body w c).2 = committed (ingest_once w c).2.
Proof.
  rewrite loop_body_committed.
  destruct (ingest_once_sigint_cases w c)
    as [->|[_ [H|(_ & c1 & Hrun & H)]]]; [by right | by left |].
  right. by rewrite Hrun.
Qed.

(** ** The bootstrap and the rows *)

(** X15.  The bootstrap never touches a row: when it returns, the rows of
    the three tables it has committed are those the connection saw
    before. *)
Theorem ensure_schema_keeps_rows (c c1 : conn) :
  ensure_schema c = (Ok tt, c1) →
  users (committed c1) = users (pending c) ∧
  assets (committed c1) = assets (pending c) ∧
  transactions (committed c1) = transactions (pending c).
Proof.
  intros H. apply ensure_schema_post in H as (_ & -> & (_ & _ & _ & _ & _ & R)).
  by injection R as -> -> ->.
Qed.

Lemma ensure_schema_keeps_rows_witness :
  ∃ c1, ensure_schema running_store = (Ok tt, c1) ∧
        transactions (committed c1) = transactions (pending running_store).
Proof.
  assert (ensure_schema running_store
          = (Ok tt, (ensure_schema running_store).2)) as Hrun
    by (vm_compute; reflexivity).
  destruct (ensure_schema_keeps_rows _ _ Hrun) as (_ & _ & Ht).
  eexists. split; [exact Hrun | exact Ht].
Defined.
